(** * Firestore [AbstractUserDataWriter]: decoding wire values into user values

    A shallow embedding of [packages/firestore/src/api/user_data_writer.ts]
    together with the properties its specification states about it.

    The decoder is a recursive walk over a tagged wire value.  It has two
    effects, both made explicit here: it may throw, and it may append to the
    error log ([logError]).  What the file imports from other modules of the
    package is a field of the [Collaborators] class; a collaborator either
    returns, or fails with an error of its own after logging what it logged,
    as [fail] does before it throws. *)

From Stdlib Require Import List String Ascii Bool PrimFloat.
Import ListNotations.

Set Implicit Arguments.
Set Warnings "-register-all".

Open Scope string_scope.

(** ** JavaScript values used by the decoder *)

Module Js.

(** A JavaScript [number] is an IEEE 754 binary64 value. *)
Definition number : Type := float.

(** [string | number], the type of [integerValue] and [doubleValue]. *)
Inductive StringOrNumber : Type :=
| Str (s : string)
| Num (n : number).

(** Truthiness: the falsy strings and numbers are [""], [0], [-0], [NaN]. *)
Definition truthy (v : StringOrNumber) : bool :=
  match v with
  | Str s => negb (String.eqb s "")
  | Num n => negb (PrimFloat.is_zero n) && negb (PrimFloat.is_nan n)
  end.

(** [a || b] on [string | number | undefined]; [None] is [undefined]. *)
Definition or (a b : option StringOrNumber) : option StringOrNumber :=
  match a with
  | Some v => if truthy v then a else b
  | None => b
  end.

(** An object is kept as the list of its own properties, in iteration order.
    [define] sets an own property: an existing key keeps its place, a new one
    is added last. *)
Fixpoint define {A : Type} (o : list (string * A)) (key : string) (v : A)
  : list (string * A) :=
  match o with
  | [] => [(key, v)]
  | (k, x) :: rest =>
      if String.eqb k key then (k, v) :: rest else (k, x) :: define rest key v
  end.

(** [result[key] = v] on an object made by [{}].  The key [__proto__] names
    the accessor of [Object.prototype]: the assignment runs its setter and
    adds no own property.  Every other key is an own property.  An object
    is its list of own properties here: the prototype that the setter
    installs, when [v] is an object, is not represented. *)
Definition assign {A : Type} (o : list (string * A)) (key : string) (v : A)
  : list (string * A) :=
  if String.eqb key "__proto__" then o else define o key v.

(** [o[key]], among the own properties. *)
Fixpoint lookup {A : Type} (o : list (string * A)) (key : string) : option A :=
  match o with
  | [] => None
  | (k, x) :: rest => if String.eqb k key then Some x else lookup rest key
  end.

Definition keys {A : Type} (o : list (string * A)) : list string := map fst o.

End Js.

(** ** Collaborators

    Types and functions imported by [user_data_writer.ts] whose definitions
    live in other modules. *)

(** What a call into another module does: it returns a value, or it throws
    [error] after logging [log] (the assertions of the package log their
    message before they throw). *)
Inductive Attempt (E A : Type) : Type :=
| Done (a : A)
| Failed (log : list string) (error : E).
Arguments Done {E A} a.
Arguments Failed {E A} log error.

(** [ProtoTimestamp]: an RFC 3339 string, or an object whose [seconds] and
    [nanos] are both optional. *)
Inductive ProtoTimestamp : Type :=
| TimestampString (s : string)
| TimestampObject (seconds : option Js.StringOrNumber) (nanos : option Js.number).

(** Result of [normalizeTimestamp]. *)
Record NormalizedTimestamp : Type :=
  { seconds : Js.number; nanos : Js.number }.

(** The native [Timestamp]: its properties are [seconds] and [nanoseconds]. *)
Record Timestamp : Type :=
  { Timestamp_seconds : Js.number; Timestamp_nanoseconds : Js.number }.

(** A native [Timestamp] read where a [ProtoTimestamp] is expected: the
    object has a [seconds] property and no [nanos] property. *)
Definition timestampAsProto (timestamp : Timestamp) : ProtoTimestamp :=
  TimestampObject (Some (Js.Num (Timestamp_seconds timestamp))) None.

(** [ProtoLatLng]: both coordinates are optional on the wire. *)
Record ProtoLatLng : Type :=
  { latitude : option Js.number; longitude : option Js.number }.

Class Collaborators : Type :=
  { (** The type of [bytesValue]. *)
    ProtoBytes : Type;
    (** [util/byte_string]. *)
    ByteString : Type;
    (** [model/path]. *)
    ResourcePath : Type;
    (** What the collaborators throw. *)
    ExternalError : Type;
    (** [util/assert]: the message [fail] logs for a failure text. *)
    assertionMessage : string -> string;
    (** [model/values]. *)
    normalizeNumber : option Js.StringOrNumber -> Js.number;
    normalizeByteString : ProtoBytes -> Attempt ExternalError ByteString;
    normalizeTimestamp :
      ProtoTimestamp -> Attempt ExternalError NormalizedTimestamp;
    (** [model/server_timestamps]: [getLocalWriteTime], as a function of the
        local write time the wrapper carries; it returns a native
        [Timestamp]. *)
    getLocalWriteTime : ProtoTimestamp -> Attempt ExternalError Timestamp;
    (** The argument checks of [new Timestamp] and [new GeoPoint]. *)
    validateTimestamp : Js.number -> Js.number -> Attempt ExternalError unit;
    validateGeoPoint : Js.number -> Js.number -> Attempt ExternalError unit;
    (** [ResourcePath.fromString], [get], [popFirst] and [toString]. *)
    fromString : string -> Attempt ExternalError ResourcePath;
    get : ResourcePath -> nat -> string;
    popFirst : ResourcePath -> nat -> Attempt ExternalError ResourcePath;
    canonicalString : ResourcePath -> string;
    (** [model/document_key]: the argument check of [new DocumentKey]. *)
    validateDocumentKey : ResourcePath -> Attempt ExternalError unit;
    (** [remote/serializer]. *)
    isValidResourceName : ResourcePath -> bool }.

(** Modelled from the spec: [DatabaseId] ([core/database_info] is not among
    the sources).  A database identity is the pair of a project identifier and
    a database identifier, compared by value. *)
Record DatabaseId : Type :=
  { projectId : string; database : string }.

Definition DatabaseId_isEqual (a b : DatabaseId) : bool :=
  String.eqb (projectId a) (projectId b) && String.eqb (database a) (database b).

(** The three client contexts; each supplies the expected database identity. *)
Record Firestore : Type := { Firestore_databaseId : DatabaseId }.
Record ExpFirebaseFirestore : Type := { Exp_databaseId : DatabaseId }.
Record LiteFirebaseFirestore : Type := { Lite_databaseId : DatabaseId }.

Inductive ServerTimestampBehavior : Type :=
| estimate
| previous
| none.

Section Decoder.

Context {C : Collaborators}.

(** [model/document_key]: a key wraps the database-relative path. *)
Record DocumentKey : Type := { path : ResourcePath }.

(** ** The wire value

    Modelled from the spec: [ProtoValue] ([protos/firestore_proto_api]),
    [typeOrder] ([model/values]) and the server-timestamp accessors
    ([model/server_timestamps]) are not among the sources.  A wire value is a
    tagged union with exactly one populated variant; a server-timestamp
    wrapper carries its local write time and an optional previous value; a
    value with no recognised tag is [Untagged], with the text
    [JSON.stringify] gives for it.  The constructor a value is built with is
    the tag [typeOrder] reports. *)
Inductive Value : Type :=
| NullValue
| BooleanValue (b : bool)
| IntegerValue (i : Js.StringOrNumber)
| DoubleValue (d : Js.StringOrNumber)
| TimestampValue (t : ProtoTimestamp)
| ServerTimestampValue (localWriteTime : ProtoTimestamp)
                       (previousValue : option Value)
| StringValue (s : string)
| BytesValue (b : ProtoBytes)
| ReferenceValue (name : string)
| GeoPointValue (g : ProtoLatLng)
| ArrayValue (values : option (list Value))
| MapValue (fields : option (list (string * Value)))
| Untagged (json : string).

(** The optional fields read at line 73. *)
Definition integerValue (value : Value) : option Js.StringOrNumber :=
  match value with IntegerValue i => Some i | _ => None end.

Definition doubleValue (value : Value) : option Js.StringOrNumber :=
  match value with DoubleValue d => Some d | _ => None end.

(** ** The decoded value: what [unknown] ranges over here *)
Inductive Decoded : Type :=
| JsNull
| JsBoolean (b : bool)
| JsNumber (n : Js.number)
| JsString (s : string)
| NewTimestamp (sec nanosec : Js.number)
| NewGeoPoint (lat lng : Js.number)
| NewBlob (bytes : ByteString)
| NewBytes (bytes : ByteString)
| DocumentReference_forKey (key : DocumentKey) (firestore : Firestore)
| NewExpDocumentReference (firestore : ExpFirebaseFirestore) (key : DocumentKey)
| NewLiteDocumentReference (firestore : LiteFirebaseFirestore) (key : DocumentKey)
| JsArray (elements : list Decoded)
| JsObject (properties : list (string * Decoded)).

(** ** Effects: faults and the error log *)

(** What a call of the decoder throws: one of the two assertions of the file,
    with the data its message is built from, or what a collaborator threw. *)
Inductive Fault : Type :=
| InvalidValueType (json : string)
| ReferenceValueIsNotValid (name : string)
| Thrown (error : ExternalError).

(** The failure text handed to [fail] (line 91) and to [hardAssert]
    (line 152). *)
Definition failureText (f : Fault) : string :=
  match f with
  | InvalidValueType json => "Invalid value type: " ++ json
  | ReferenceValueIsNotValid name => "ReferenceValue is not valid " ++ name
  | Thrown _ => ""
  end.

Inductive Outcome (A : Type) : Type :=
| Returned (a : A)
| Threw (f : Fault).
Arguments Returned {A} a.
Arguments Threw {A} f.

(** A computation yields the messages it logged, oldest first, and either a
    value or the fault that ended it. *)
Definition M (A : Type) : Type := (list string * Outcome A)%type.

Definition logged {A : Type} (m : M A) : list string := fst m.
Definition outcome {A : Type} (m : M A) : Outcome A := snd m.

Definition ret {A : Type} (a : A) : M A := ([], Returned a).

Definition bind {A B : Type} (m : M A) (k : A -> M B) : M B :=
  match m with
  | (l, Returned a) => let (l', o) := k a in ((l ++ l')%list, o)
  | (l, Threw f) => (l, Threw f)
  end.

Definition logError (msg : string) : M unit := ([msg], Returned tt).

(** [util/assert]'s [fail]: it logs the assertion message, then throws. *)
Definition fail {A : Type} (f : Fault) : M A :=
  ([assertionMessage (failureText f)], Threw f).

(** [util/assert]'s [hardAssert]: [fail] when the assertion is false. *)
Definition hardAssert (assertion : bool) (f : Fault) : M unit :=
  if assertion then ret tt else fail f.

(** A call into another module. *)
Definition call {A : Type} (attempt : Attempt ExternalError A) : M A :=
  match attempt with
  | Done a => ret a
  | Failed log error => (log, Threw (Thrown error))
  end.

Notation "x <- m ;; k" := (bind m (fun x => k))
  (at level 61, m at next level, right associativity).
Notation "m ;;; k" := (bind m (fun _ => k))
  (at level 61, right associativity).

(** [Array.prototype.map] with an effectful callback: elements are visited
    in index order and the first fault ends the walk. *)
Fixpoint mapM {A B : Type} (f : A -> M B) (l : list A) : M (list B) :=
  match l with
  | [] => ret []
  | a :: rest => b <- f a ;; bs <- mapM f rest ;; ret (b :: bs)
  end.

(** [util/obj]'s [forEach] with a callback that updates the object being
    built: own properties are visited in iteration order. *)
Section ForEach.

Context {A R : Type} (fn : string -> A -> R -> M R).

Fixpoint forEachFrom (obj : list (string * A)) (result : R) : M R :=
  match obj with
  | [] => ret result
  | (key, value) :: rest => r <- fn key value result ;; forEachFrom rest r
  end.

End ForEach.

Definition forEach {A R : Type} (obj : list (string * A))
           (fn : string -> A -> R -> M R) (result : R) : M R :=
  forEachFrom fn obj result.

(** ** [convertDocumentKey] (lines 145-169) *)

Definition foreignReferenceMessage
           (key : DocumentKey) (databaseId expectedDatabaseId : DatabaseId)
  : string :=
  "Document " ++ canonicalString (path key) ++ " contains a document " ++
  "reference within a different database (" ++
  projectId databaseId ++ "/" ++ database databaseId ++ ") which is not " ++
  "supported. It will be treated as a reference in the current " ++
  "database (" ++ projectId expectedDatabaseId ++ "/" ++
  database expectedDatabaseId ++ ") " ++
  "instead.".

(** [new DocumentKey(path)]: the constructor checks its argument, then
    keeps it. *)
Definition newDocumentKey (segments : ResourcePath) : M DocumentKey :=
  call (validateDocumentKey segments) ;;; ret {| path := segments |}.

Definition convertDocumentKey (name : string) (expectedDatabaseId : DatabaseId)
  : M DocumentKey :=
  resourcePath <- call (fromString name) ;;
  hardAssert (isValidResourceName resourcePath)
             (ReferenceValueIsNotValid name) ;;;
  let databaseId :=
    {| projectId := get resourcePath 1; database := get resourcePath 3 |} in
  rest <- call (popFirst resourcePath 5) ;;
  key <- newDocumentKey rest ;;
  (if negb (DatabaseId_isEqual databaseId expectedDatabaseId)
   then logError (foreignReferenceMessage key databaseId expectedDatabaseId)
   else ret tt) ;;;
  ret key.

(** ** The abstract writer and its three concrete variants *)

Class AbstractUserDataWriter : Type :=
  { convertReference : string -> M Decoded;
    convertBytes : ByteString -> Decoded }.

Definition UserDataWriter (firestore : Firestore) : AbstractUserDataWriter :=
  {| convertBytes := fun bytes => NewBlob bytes;
     convertReference := fun name =>
       key <- convertDocumentKey name (Firestore_databaseId firestore) ;;
       ret (DocumentReference_forKey key firestore) |}.

Definition ExpUserDataWriter (firestore : ExpFirebaseFirestore)
  : AbstractUserDataWriter :=
  {| convertBytes := fun bytes => NewBytes bytes;
     convertReference := fun name =>
       key <- convertDocumentKey name (Exp_databaseId firestore) ;;
       ret (NewExpDocumentReference firestore key) |}.

Definition LiteUserDataWriter (firestore : LiteFirebaseFirestore)
  : AbstractUserDataWriter :=
  {| convertBytes := fun bytes => NewBytes bytes;
     convertReference := fun name =>
       key <- convertDocumentKey name (Lite_databaseId firestore) ;;
       ret (NewLiteDocumentReference firestore key) |}.

(** ** [convertValue] (lines 63-143) *)

(** [new Timestamp(seconds, nanoseconds)] and [new GeoPoint(latitude,
    longitude)]: the constructor checks its arguments, then keeps them. *)
Definition newTimestamp (sec nanosec : Js.number) : M Decoded :=
  call (validateTimestamp sec nanosec) ;;; ret (NewTimestamp sec nanosec).

Definition newGeoPoint (lat lng : Js.number) : M Decoded :=
  call (validateGeoPoint lat lng) ;;; ret (NewGeoPoint lat lng).

Definition convertTimestamp (value : ProtoTimestamp) : M Decoded :=
  normalizedValue <- call (normalizeTimestamp value) ;;
  newTimestamp (seconds normalizedValue) (nanos normalizedValue).

Definition convertGeoPoint (value : ProtoLatLng) : M Decoded :=
  newGeoPoint (normalizeNumber (option_map Js.Num (latitude value)))
              (normalizeNumber (option_map Js.Num (longitude value))).

(** The argument of [normalizeNumber] at line 73:
    [value.integerValue || value.doubleValue]. *)
Definition numberOperand (value : Value) : option Js.StringOrNumber :=
  Js.or (integerValue value) (doubleValue value).

Section Writer.

Context {W : AbstractUserDataWriter}.

(** The private methods [convertObject], [convertArray] and
    [convertServerTimestamp] call back into [convertValue]; their bodies
    are written in place here and named after the definition.  At line 134
    the native [Timestamp] that [getLocalWriteTime] returns is handed to
    [convertTimestamp], which reads it as a [ProtoTimestamp]. *)
Fixpoint convertValue (value : Value)
         (serverTimestampBehavior : ServerTimestampBehavior) {struct value}
  : M Decoded :=
  match value with
  | NullValue => ret JsNull
  | BooleanValue b => ret (JsBoolean b)
  | IntegerValue _ | DoubleValue _ =>
      ret (JsNumber (normalizeNumber (numberOperand value)))
  | TimestampValue t => convertTimestamp t
  | ServerTimestampValue localWriteTime previousValue =>
      match serverTimestampBehavior with
      | previous =>
          match previousValue with
          | None => ret JsNull
          | Some p => convertValue p serverTimestampBehavior
          end
      | estimate =>
          timestamp <- call (getLocalWriteTime localWriteTime) ;;
          convertTimestamp (timestampAsProto timestamp)
      | none => ret JsNull
      end
  | StringValue s => ret (JsString s)
  | BytesValue b =>
      bytes <- call (normalizeByteString b) ;; ret (convertBytes bytes)
  | ReferenceValue name => convertReference name
  | GeoPointValue g => convertGeoPoint g
  | ArrayValue values =>
      let callback := fun v => convertValue v serverTimestampBehavior in
      elements <- match values with
                  | Some l => mapM callback l
                  | None => mapM callback []
                  end ;;
      ret (JsArray elements)
  | MapValue fields =>
      let callback := fun key v (result : list (string * Decoded)) =>
        d <- convertValue v serverTimestampBehavior ;;
        ret (Js.assign result key d) in
      result <- match fields with
                | Some o => forEach o callback []
                | None => forEach [] callback []
                end ;;
      ret (JsObject result)
  | Untagged json => fail (InvalidValueType json)
  end.

(** The call with the policy argument left out: it defaults to ['none']. *)
Definition convertValueDefault (value : Value) : M Decoded :=
  convertValue value none.

Definition convertArray (values : option (list Value))
           (serverTimestampBehavior : ServerTimestampBehavior)
  : M (list Decoded) :=
  mapM (fun v => convertValue v serverTimestampBehavior)
       (match values with Some l => l | None => [] end).

Definition convertObject (fields : option (list (string * Value)))
           (serverTimestampBehavior : ServerTimestampBehavior)
  : M (list (string * Decoded)) :=
  forEach (match fields with Some o => o | None => [] end)
          (fun key v result =>
             d <- convertValue v serverTimestampBehavior ;;
             ret (Js.assign result key d))
          [].

Definition convertServerTimestamp
           (localWriteTime : ProtoTimestamp) (previousValue : option Value)
           (serverTimestampBehavior : ServerTimestampBehavior)
  : M Decoded :=
  match serverTimestampBehavior with
  | previous =>
      match previousValue with
      | None => ret JsNull
      | Some p => convertValue p serverTimestampBehavior
      end
  | estimate =>
      timestamp <- call (getLocalWriteTime localWriteTime) ;;
      convertTimestamp (timestampAsProto timestamp)
  | none => ret JsNull
  end.

End Writer.

(** ** Vocabulary of the properties *)

Definition returns {A : Type} (m : M A) (a : A) : Prop :=
  outcome m = Returned a.

Definition throws {A : Type} (m : M A) : Prop :=
  exists f, outcome m = Threw f.

(** A computation that has logged nothing whenever it returns. *)
Definition quiet {A : Type} (m : M A) : Prop :=
  forall a, returns m a -> logged m = [].

(** Two property lists are matched entry by entry: same key, and the
    second value is what [f] returns on the first. *)
Definition fieldwise {A B : Type} (f : A -> M B)
           (o : list (string * A)) (r : list (string * B)) : Prop :=
  Forall2 (fun kv kd => fst kv = fst kd /\ returns (f (snd kv)) (snd kd)) o r.

(** The key whose assignment adds no own property, and the fields of a map
    that become own properties of the decoded object. *)
Definition isProtoKey (key : string) : bool := String.eqb key "__proto__".

Definition ownFields {A : Type} (o : list (string * A)) : list (string * A) :=
  filter (fun kv => negb (isProtoKey (fst kv))) o.

(** The rendering of an identity in the diagnostic: [project/database]. *)
Definition renderDatabaseId (id : DatabaseId) : string :=
  projectId id ++ "/" ++ database id.

(** [msg] contains the rendering of [id]. *)
Definition namesDatabaseId (msg : string) (id : DatabaseId) : Prop :=
  exists before after, msg = before ++ renderDatabaseId id ++ after.

(** The identity embedded in a parsed name (line 154). *)
Definition embeddedDatabaseId (resourcePath : ResourcePath) : DatabaseId :=
  {| projectId := get resourcePath 1; database := get resourcePath 3 |}.

(** What lines 149-155 read off a reference name when none of them throws:
    the embedded identity and the key.  [None] when the name does not
    parse, fails the check of line 151, has no five leading segments to
    strip, or leaves a path that is refused as a key. *)
Definition parseReference (name : string) : option (DatabaseId * DocumentKey) :=
  match fromString name with
  | Done resourcePath =>
      if isValidResourceName resourcePath
      then match popFirst resourcePath 5 with
           | Done rest =>
               match validateDocumentKey rest with
               | Done _ =>
                   Some (embeddedDatabaseId resourcePath, {| path := rest |})
               | Failed _ _ => None
               end
           | Failed _ _ => None
           end
      else None
  | Failed _ _ => None
  end.

(** The diagnostic of lines 157-167 for a reference name: the message, when
    the name is read and embeds another identity than the expected one. *)
Definition foreignDiagnostic (expectedDatabaseId : DatabaseId) (name : string)
  : list string :=
  match parseReference name with
  | Some (databaseId, key) =>
      if DatabaseId_isEqual databaseId expectedDatabaseId
      then []
      else [foreignReferenceMessage key databaseId expectedDatabaseId]
  | None => []
  end.

(** The oldest value behind a chain of pending writes: follow the previous
    value of each wrapper until a value that is not a wrapper, or until a
    wrapper that has none. *)
Fixpoint oldestValue (value : Value) : option Value :=
  match value with
  | ServerTimestampValue _ previousValue =>
      match previousValue with
      | Some p => oldestValue p
      | None => None
      end
  | _ => Some value
  end.

Definition isServerTimestamp (value : Value) : bool :=
  match value with
  | ServerTimestampValue _ _ => true
  | _ => false
  end.

(** No server-timestamp wrapper anywhere in the tree. *)
Fixpoint noServerTimestamp (value : Value) : bool :=
  match value with
  | ServerTimestampValue _ _ => false
  | ArrayValue (Some l) => forallb noServerTimestamp l
  | MapValue (Some o) => forallb (fun kv => let '(_, v) := kv in
                                            noServerTimestamp v) o
  | _ => true
  end.

(** *** Traversals of a wire value

    What [convertValue] reaches depends on the policy: the previous value of a
    server-timestamp wrapper is decoded under ['previous'] only. *)

(** The names of the references [convertValue] decodes, in the order in
    which it reaches them. *)
Fixpoint visitedReferences (stb : ServerTimestampBehavior) (value : Value)
  : list string :=
  match value with
  | ReferenceValue name => [name]
  | ServerTimestampValue _ previousValue =>
      match stb, previousValue with
      | previous, Some p => visitedReferences stb p
      | _, _ => []
      end
  | ArrayValue (Some l) => flat_map (visitedReferences stb) l
  | MapValue (Some o) =>
      flat_map (fun kv => let '(_, v) := kv in visitedReferences stb v) o
  | _ => []
  end.

(** The values other than arrays and maps that [convertValue] decodes, in
    the order in which it reaches them; a wrapper stands for itself unless
    its previous value is decoded in its place. *)
Fixpoint visitedLeaves (stb : ServerTimestampBehavior) (value : Value)
  : list Value :=
  match value with
  | ServerTimestampValue _ previousValue =>
      match stb, previousValue with
      | previous, Some p => visitedLeaves stb p
      | _, _ => [value]
      end
  | ArrayValue (Some l) => flat_map (visitedLeaves stb) l
  | MapValue (Some o) =>
      flat_map (fun kv => let '(_, v) := kv in visitedLeaves stb v) o
  | ArrayValue None | MapValue None => []
  | _ => [value]
  end.

(** [convertValue] reaches nothing but null, booleans, numbers, strings, and
    arrays, maps and wrappers over them: no timestamp, bytes, reference, geo
    point or untagged value, and no local write time. *)
Fixpoint reachesScalarsOnly (stb : ServerTimestampBehavior) (value : Value)
  : bool :=
  match value with
  | NullValue | BooleanValue _ | IntegerValue _ | DoubleValue _
  | StringValue _ => true
  | ServerTimestampValue _ previousValue =>
      match stb, previousValue with
      | previous, Some p => reachesScalarsOnly stb p
      | previous, None => true
      | estimate, _ => false
      | none, _ => true
      end
  | ArrayValue (Some l) => forallb (reachesScalarsOnly stb) l
  | MapValue (Some o) =>
      forallb (fun kv => let '(_, v) := kv in reachesScalarsOnly stb v) o
  | ArrayValue None | MapValue None => true
  | _ => false
  end.

(** No map of the tree has a field named [__proto__]. *)
Fixpoint noProtoKey (value : Value) : bool :=
  match value with
  | ServerTimestampValue _ (Some p) => noProtoKey p
  | ArrayValue (Some l) => forallb noProtoKey l
  | MapValue (Some o) =>
      forallb (fun kv => let '(k, v) := kv in
                         negb (String.eqb k "__proto__") && noProtoKey v) o
  | _ => true
  end.

(** The tree with the previous value of every wrapper removed. *)
Fixpoint withoutPrevious (value : Value) : Value :=
  match value with
  | ServerTimestampValue t _ => ServerTimestampValue t None
  | ArrayValue (Some l) => ArrayValue (Some (map withoutPrevious l))
  | MapValue (Some o) =>
      MapValue (Some (map (fun kv => let '(k, v) := kv in
                                     (k, withoutPrevious v)) o))
  | _ => value
  end.

(** The tree with every wrapper replaced by the oldest value of its chain of
    pending writes, or by null when the chain ends without one. *)
Fixpoint resolvePrevious (value : Value) : Value :=
  match value with
  | ServerTimestampValue _ previousValue =>
      match previousValue with
      | Some p => resolvePrevious p
      | None => NullValue
      end
  | ArrayValue (Some l) => ArrayValue (Some (map resolvePrevious l))
  | MapValue (Some o) =>
      MapValue (Some (map (fun kv => let '(k, v) := kv in
                                     (k, resolvePrevious v)) o))
  | _ => value
  end.

(** *** The content of a decoded value

    What is left of a decoded value once the wrappers that differ between the
    three writers are taken off: a blob is its bytes, a reference handle is
    its key. *)
Inductive Plain : Type :=
| PlainNull
| PlainBoolean (b : bool)
| PlainNumber (n : Js.number)
| PlainString (s : string)
| PlainTimestamp (sec nanosec : Js.number)
| PlainGeoPoint (lat lng : Js.number)
| PlainBytes (bytes : ByteString)
| PlainKey (key : DocumentKey)
| PlainArray (elements : list Plain)
| PlainObject (properties : list (string * Plain)).

Definition onValues {A B : Type} (g : A -> B) (o : list (string * A))
  : list (string * B) :=
  map (fun kv => let '(k, x) := kv in (k, g x)) o.

Fixpoint plain (d : Decoded) : Plain :=
  match d with
  | JsNull => PlainNull
  | JsBoolean b => PlainBoolean b
  | JsNumber n => PlainNumber n
  | JsString s => PlainString s
  | NewTimestamp sec nanosec => PlainTimestamp sec nanosec
  | NewGeoPoint lat lng => PlainGeoPoint lat lng
  | NewBlob bytes | NewBytes bytes => PlainBytes bytes
  | DocumentReference_forKey key _
  | NewExpDocumentReference _ key
  | NewLiteDocumentReference _ key => PlainKey key
  | JsArray elements => PlainArray (map plain elements)
  | JsObject properties =>
      PlainObject (map (fun kv => let '(k, x) := kv in (k, plain x)) properties)
  end.

(** What a computation shows of itself through [g]: its outcome with [g]
    applied to the value, and its log when [keepLog] is set. *)
Definition observe {A B : Type} (g : A -> B) (keepLog : bool) (m : M A) : M B :=
  (if keepLog then logged m else [],
   match outcome m with
   | Returned a => Returned (g a)
   | Threw f => Threw f
   end).

(** The content of what a call returns, or the fault it throws. *)
Definition content (m : M Decoded) : Outcome Plain :=
  match outcome m with
  | Returned d => Returned (plain d)
  | Threw f => Threw f
  end.

(** *** The three writers, taken together *)

Inductive Variant : Type :=
| Classic (firestore : Firestore)
| Exp (firestore : ExpFirebaseFirestore)
| Lite (firestore : LiteFirebaseFirestore).

Definition writerOf (variant : Variant) : AbstractUserDataWriter :=
  match variant with
  | Classic firestore => UserDataWriter firestore
  | Exp firestore => ExpUserDataWriter firestore
  | Lite firestore => LiteUserDataWriter firestore
  end.

(** [this.firestore._databaseId]. *)
Definition databaseIdOf (variant : Variant) : DatabaseId :=
  match variant with
  | Classic firestore => Firestore_databaseId firestore
  | Exp firestore => Exp_databaseId firestore
  | Lite firestore => Lite_databaseId firestore
  end.

(** The handle a variant wraps a key in (lines 187, 202 and 217-221). *)
Definition handleOf (variant : Variant) (key : DocumentKey) : Decoded :=
  match variant with
  | Classic firestore => DocumentReference_forKey key firestore
  | Exp firestore => NewExpDocumentReference firestore key
  | Lite firestore => NewLiteDocumentReference firestore key
  end.

(** ** Structural induction on wire values, through arrays, maps and
    previous values *)

Definition whenSome {A : Type} (P : A -> Prop) (o : option A) : Prop :=
  match o with
  | Some a => P a
  | None => True
  end.

Section ValueInduction.

Variable P : Value -> Prop.

Hypothesis P_null : P NullValue.
Hypothesis P_boolean : forall b, P (BooleanValue b).
Hypothesis P_integer : forall i, P (IntegerValue i).
Hypothesis P_double : forall d, P (DoubleValue d).
Hypothesis P_timestamp : forall t, P (TimestampValue t).
Hypothesis P_server_timestamp :
  forall t p, whenSome P p -> P (ServerTimestampValue t p).
Hypothesis P_string : forall s, P (StringValue s).
Hypothesis P_bytes : forall b, P (BytesValue b).
Hypothesis P_reference : forall name, P (ReferenceValue name).
Hypothesis P_geo_point : forall g, P (GeoPointValue g).
Hypothesis P_array :
  forall values, whenSome (Forall P) values -> P (ArrayValue values).
Hypothesis P_map :
  forall fields,
    whenSome (Forall (fun kv => P (snd kv))) fields -> P (MapValue fields).
Hypothesis P_untagged : forall json, P (Untagged json).

Fixpoint Value_nested_ind (value : Value) : P value :=
  match value with
  | NullValue => P_null
  | BooleanValue b => P_boolean b
  | IntegerValue i => P_integer i
  | DoubleValue d => P_double d
  | TimestampValue t => P_timestamp t
  | ServerTimestampValue t p =>
      P_server_timestamp t p
        (match p return whenSome P p with
         | Some v => Value_nested_ind v
         | None => I
         end)
  | StringValue s => P_string s
  | BytesValue b => P_bytes b
  | ReferenceValue name => P_reference name
  | GeoPointValue g => P_geo_point g
  | ArrayValue values =>
      P_array values
        (match values return whenSome (Forall P) values with
         | Some l =>
             (fix all (l : list Value) : Forall P l :=
                match l with
                | [] => Forall_nil P
                | v :: rest => Forall_cons v (Value_nested_ind v) (all rest)
                end) l
         | None => I
         end)
  | MapValue fields =>
      P_map fields
        (match fields return
               whenSome (Forall (fun kv => P (snd kv))) fields with
         | Some o =>
             (fix all (o : list (string * Value))
                : Forall (fun kv => P (snd kv)) o :=
                match o with
                | [] => Forall_nil _
                | (k, v) :: rest =>
                    Forall_cons (k, v) (Value_nested_ind v) (all rest)
                end) o
         | None => I
         end)
  | Untagged json => P_untagged json
  end.

End ValueInduction.

End Decoder.

Arguments Returned {C A} a.
Arguments Threw {C A} f.

Notation "x <- m ;; k" := (bind m (fun x => k))
  (at level 61, m at next level, right associativity).

(** ** A concrete set of collaborators

    Stand-ins for the collaborators, written after the package's own, to run
    the decoder on concrete wire values.  None of them is among the
    sources. *)

Module Sample.

(** What the stand-ins throw. *)
Inductive Error : Type :=
| InvalidPath (name : string)
| AssertionFailed (failure : string)
| TimestampNanosecondsOutOfRange (nanosec : Js.number)
| TimestampSecondsOutOfRange (sec : Js.number)
| LatitudeOutOfRange (lat : Js.number)
| LongitudeOutOfRange (lng : Js.number)
| InvalidBase64 (text : string).

Definition SDK_VERSION : string := "8.0.0".

(** [fail]: the message it logs, and the stand-in's failing call. *)
Definition assertionText (failure : string) : string :=
  "FIRESTORE (" ++ SDK_VERSION ++ ") INTERNAL ASSERTION FAILED: " ++ failure.

Definition failing {A : Type} (failure : string) : Attempt Error A :=
  Failed [assertionText failure] (AssertionFailed failure).

(** [ResourcePath.fromString]: a name with an empty segment inside is
    refused; otherwise the name is split on the separator and the empty
    segments at its ends are dropped. *)
Fixpoint hasDoubleSlash (s : string) : bool :=
  match s with
  | String a (String b _ as rest) =>
      (Ascii.eqb a "/" && Ascii.eqb b "/") || hasDoubleSlash rest
  | _ => false
  end.

Fixpoint segmentsFrom (s current : string) : list string :=
  match s with
  | EmptyString => [current]
  | String c rest =>
      if Ascii.eqb c "/"%char
      then current :: segmentsFrom rest ""
      else segmentsFrom rest (current ++ String c "")
  end.

Definition parsePath (name : string) : Attempt Error (list string) :=
  if hasDoubleSlash name
  then Failed [] (InvalidPath name)
  else Done (filter (fun segment => negb (String.eqb segment ""))
                    (segmentsFrom name "")).

(** [popFirst]: no more segments are dropped than the path has. *)
Definition dropSegments (segments : list string) (size : nat)
  : Attempt Error (list string) :=
  if Nat.leb size (List.length segments)
  then Done (skipn size segments)
  else failing "Can't call popFirst() with less segments".

(** The argument check of [new DocumentKey]: a key has an even number of
    segments. *)
Definition checkDocumentKey (segments : list string) : Attempt Error unit :=
  if Nat.even (List.length segments)
  then Done tt
  else failing ("Invalid DocumentKey with an odd number of segments: " ++
                String.concat "/" segments).

(** [isValidResourceName]: at least four segments, [projects] first and
    [databases] third. *)
Definition hasResourceNameShape (segments : list string) : bool :=
  Nat.leb 4 (List.length segments) &&
  String.eqb (nth 0 segments "") "projects" &&
  String.eqb (nth 2 segments "") "databases".

(** JavaScript's [Number] on the empty string, which is zero, and on an
    optional sign followed by decimal digits, which is that integer.  The
    other strings that [Number] reads (a fraction, an exponent, blanks
    around the digits) are not read here and are taken to [NaN]. *)
Fixpoint positionIn (c : Ascii.ascii) (digits : string) (n : Js.number)
  : option Js.number :=
  match digits with
  | EmptyString => None
  | String d rest =>
      if Ascii.eqb c d then Some n else positionIn c rest (n + 1)%float
  end.

Definition digit (c : Ascii.ascii) : option Js.number :=
  positionIn c "0123456789" 0%float.

Fixpoint digitsFrom (s : string) (acc : Js.number) : Js.number :=
  match s with
  | EmptyString => acc
  | String c rest =>
      match digit c with
      | Some d => digitsFrom rest (acc * 10 + d)%float
      | None => PrimFloat.nan
      end
  end.

Definition numberOfString (s : string) : Js.number :=
  match s with
  | EmptyString => 0%float
  | String "-" (String _ _ as rest) => (- digitsFrom rest 0)%float
  | String "+" (String _ _ as rest) => digitsFrom rest 0%float
  | String "-" EmptyString | String "+" EmptyString => PrimFloat.nan
  | _ => digitsFrom s 0%float
  end.

(** [normalizeNumber]: a number is returned as it is, a string is read by
    [Number], an absent payload is zero. *)
Definition toNumber (value : option Js.StringOrNumber) : Js.number :=
  match value with
  | Some (Js.Num n) => n
  | Some (Js.Str s) => numberOfString s
  | None => 0%float
  end.

(** [normalizeTimestamp] on the object form: each property is normalised as
    a number.  The string form, which the package parses as an RFC 3339
    date, is not read here and is refused. *)
Definition toSecondsAndNanos (date : ProtoTimestamp)
  : Attempt Error NormalizedTimestamp :=
  match date with
  | TimestampObject sec nanosec =>
      Done {| seconds := toNumber sec;
              nanos := toNumber (option_map Js.Num nanosec) |}
  | TimestampString s => failing ("invalid timestamp: " ++ s)
  end.

(** The argument checks of [new Timestamp]. *)
Definition checkTimestamp (sec nanosec : Js.number) : Attempt Error unit :=
  if (nanosec <? 0)%float
  then Failed [] (TimestampNanosecondsOutOfRange nanosec)
  else if (1000000000 <=? nanosec)%float
  then Failed [] (TimestampNanosecondsOutOfRange nanosec)
  else if (sec <? -62135596800)%float
  then Failed [] (TimestampSecondsOutOfRange sec)
  else if (253402300800 <=? sec)%float
  then Failed [] (TimestampSecondsOutOfRange sec)
  else Done tt.

(** The argument checks of [new GeoPoint]. *)
Definition isFinite (n : Js.number) : bool :=
  negb (PrimFloat.is_nan n || PrimFloat.is_infinity n).

Definition checkGeoPoint (lat lng : Js.number) : Attempt Error unit :=
  if negb (isFinite lat) || (lat <? -90)%float || (90 <? lat)%float
  then Failed [] (LatitudeOutOfRange lat)
  else if negb (isFinite lng) || (lng <? -180)%float || (180 <? lng)%float
  then Failed [] (LongitudeOutOfRange lng)
  else Done tt.

(** [getLocalWriteTime]: the local write time, normalised, as a native
    [Timestamp]. *)
Definition readLocalWriteTime (date : ProtoTimestamp) : Attempt Error Timestamp :=
  match toSecondsAndNanos date with
  | Done normalized =>
      match checkTimestamp (seconds normalized) (nanos normalized) with
      | Done _ => Done {| Timestamp_seconds := seconds normalized;
                          Timestamp_nanoseconds := nanos normalized |}
      | Failed log error => Failed log error
      end
  | Failed log error => Failed log error
  end.

(** [normalizeByteString] on base64 text: text outside the base64 alphabet
    is refused.  The bytes are kept in their base64 form. *)
Definition isBase64Char (c : Ascii.ascii) : bool :=
  match positionIn
          c "ABCDEFGHIJKLMNOPQRSTUVWXYZabcdefghijklmnopqrstuvwxyz0123456789+/="
          0%float with
  | Some _ => true
  | None => false
  end.

Fixpoint allBase64 (s : string) : bool :=
  match s with
  | EmptyString => true
  | String c rest => isBase64Char c && allBase64 rest
  end.

Definition decodeBase64 (text : string) : Attempt Error string :=
  if allBase64 text then Done text else Failed [] (InvalidBase64 text).

#[export] Instance collaborators : Collaborators :=
  {| ProtoBytes := string;
     ByteString := string;
     ResourcePath := list string;
     ExternalError := Error;
     assertionMessage := assertionText;
     normalizeNumber := toNumber;
     normalizeByteString := decodeBase64;
     normalizeTimestamp := toSecondsAndNanos;
     getLocalWriteTime := readLocalWriteTime;
     validateTimestamp := checkTimestamp;
     validateGeoPoint := checkGeoPoint;
     fromString := parsePath;
     get := fun segments i => nth i segments "";
     popFirst := dropSegments;
     canonicalString := fun segments => String.concat "/" segments;
     validateDocumentKey := checkDocumentKey;
     isValidResourceName := hasResourceNameShape |}.

Definition firestore : Firestore :=
  {| Firestore_databaseId := {| projectId := "P"; database := "D" |} |}.

Definition otherFirestore : Firestore :=
  {| Firestore_databaseId := {| projectId := "P"; database := "D2" |} |}.

Definition documentName : string :=
  "projects/P/databases/D/documents/coll/doc".

Definition key : DocumentKey := {| path := ["coll"; "doc"] |}.

Definition sameDatabase : DatabaseId := Firestore_databaseId firestore.
Definition otherDatabase : DatabaseId := Firestore_databaseId otherFirestore.

Definition writer : AbstractUserDataWriter := UserDataWriter firestore.

(** A wire timestamp in the object form. *)
Definition at_ (sec nanosec : Js.number) : ProtoTimestamp :=
  TimestampObject (Some (Js.Num sec)) (Some nanosec).

End Sample.

(** * Properties *)

Section DecoderProperties.

Context {C : Collaborators}.

(** ** Reasoning about the effects *)

Lemma returns_or_throws {A : Type} (m : M A) :
  (exists a, returns m a) \/ throws m.
Proof.
  destruct m as [l [a | f]]; [left; exists a | right; exists f]; reflexivity.
Qed.

Lemma returns_not_throws {A : Type} (m : M A) (a : A) :
  returns m a -> ~ throws m.
Proof.
  unfold returns, throws. intros Hr [f Hf]. rewrite Hr in Hf. discriminate.
Qed.

Lemma bind_ret {A B : Type} (a : A) (k : A -> M B) : bind (ret a) k = k a.
Proof. unfold bind, ret. destruct (k a). reflexivity. Qed.

Lemma bind_returns {A B : Type} (m : M A) (k : A -> M B) (b : B) :
  returns (bind m k) b <-> exists a, returns m a /\ returns (k a) b.
Proof.
  unfold returns, outcome, bind.
  destruct m as [l [a | f]]; simpl.
  - destruct (k a) as [l' o] eqn:E; simpl. split.
    + intros ->. exists a. rewrite E. auto.
    + intros [a' [Ha Hb]]. injection Ha as <-. rewrite E in Hb. exact Hb.
  - split; [discriminate | intros [a [Ha _]]; discriminate].
Qed.

Lemma bind_throws_l {A B : Type} (m : M A) (k : A -> M B) :
  throws m -> throws (bind m k).
Proof.
  unfold throws, outcome, bind. intros [f Hf].
  destruct m as [l [a | f']]; simpl in *; [discriminate | eauto].
Qed.

Lemma ret_returns {A : Type} (a b : A) : returns (ret a) b <-> a = b.
Proof.
  unfold returns, ret, outcome; simpl.
  split; [intros H; injection H; auto | intros ->; reflexivity].
Qed.

(** [mapM] returns exactly when the callback returns on every element, and
    then with the callback's results in the same order. *)
Lemma mapM_returns {A B : Type} (f : A -> M B) (l : list A) (bs : list B) :
  returns (mapM f l) bs <-> Forall2 (fun a b => returns (f a) b) l bs.
Proof.
  revert bs. induction l as [| a rest IH]; intros bs; simpl.
  - rewrite ret_returns. split.
    + intros <-. constructor.
    + intros H. inversion H. reflexivity.
  - rewrite bind_returns. split.
    + intros [b [Hb Hrest]]. apply bind_returns in Hrest.
      destruct Hrest as [bs' [Hbs' Hret]].
      apply (proj1 (ret_returns _ _)) in Hret.
      subst bs. constructor; [exact Hb | apply IH; exact Hbs'].
    + intros H. inversion H as [| a' b l' bs' Hb Hrest]; subst.
      exists b. split; [exact Hb |].
      apply bind_returns. exists bs'. split; [apply IH; exact Hrest |].
      apply ret_returns. reflexivity.
Qed.

Lemma mapM_ext {A B : Type} (f g : A -> M B) (l : list A) :
  Forall (fun a => f a = g a) l -> mapM f l = mapM g l.
Proof.
  induction 1 as [| a rest Ha _ IH]; simpl; [reflexivity |].
  rewrite Ha, IH. reflexivity.
Qed.

Lemma Forall2_length_nth {A B : Type} (R : A -> B -> Prop)
      (l : list A) (bs : list B) :
  Forall2 R l bs <->
  List.length bs = List.length l /\
  forall i a, nth_error l i = Some a ->
              exists b, nth_error bs i = Some b /\ R a b.
Proof.
  split.
  - induction 1 as [| a b l' bs' Hab _ [IHlen IHnth]]; simpl.
    + split; [reflexivity | intros [| i] a H; discriminate].
    + split; [congruence |].
      intros [| i] x H; simpl in *.
      * injection H as <-. exists b. auto.
      * apply IHnth. exact H.
  - revert bs. induction l as [| a l' IH]; intros [| b bs'] [Hlen Hnth];
      simpl in *; try discriminate; constructor.
    + destruct (Hnth 0 a eq_refl) as [b' [Hb' Hab]].
      simpl in Hb'. injection Hb' as <-. exact Hab.
    + apply IH. split; [congruence |].
      intros i x H. exact (Hnth (S i) x H).
Qed.

(** *** Objects as own-property lists *)

Lemma define_fresh {A : Type} (o : list (string * A)) (key : string) (v : A) :
  ~ In key (Js.keys o) -> Js.define o key v = (o ++ [(key, v)])%list.
Proof.
  induction o as [| [k x] rest IH]; simpl; intros Hfresh; [reflexivity |].
  destruct (String.eqb_spec k key) as [-> | Hne].
  - exfalso. apply Hfresh. left. reflexivity.
  - rewrite IH; [reflexivity |]. intros Hin. apply Hfresh. right. exact Hin.
Qed.

Lemma assign_fresh {A : Type} (o : list (string * A)) (key : string) (v : A) :
  isProtoKey key = false -> ~ In key (Js.keys o) ->
  Js.assign o key v = (o ++ [(key, v)])%list.
Proof.
  unfold Js.assign, isProtoKey. intros -> Hfresh. apply define_fresh. exact Hfresh.
Qed.

Lemma assign_proto {A : Type} (o : list (string * A)) (key : string) (v : A) :
  isProtoKey key = true -> Js.assign o key v = o.
Proof. unfold Js.assign, isProtoKey. intros ->. reflexivity. Qed.

Lemma lookup_In_NoDup {A : Type} (o : list (string * A)) (key : string) (v : A) :
  NoDup (Js.keys o) -> In (key, v) o -> Js.lookup o key = Some v.
Proof.
  induction o as [| [k x] rest IH]; simpl; intros Hnd Hin; [contradiction |].
  inversion Hnd as [| k' ks Hnotin Hnd']; subst.
  destruct Hin as [Heq | Hin].
  - injection Heq as -> ->. rewrite String.eqb_refl. reflexivity.
  - destruct (String.eqb_spec k key) as [-> | Hne].
    + exfalso. apply Hnotin. apply (in_map fst) in Hin. exact Hin.
    + apply IH; assumption.
Qed.

Lemma fieldwise_keys {A B : Type} (f : A -> M B) o r :
  fieldwise f o r -> Js.keys r = Js.keys o.
Proof.
  induction 1 as [| [k v] [k' d] o' r' [Hk _] _ IH]; simpl in *;
    [reflexivity | congruence].
Qed.

Lemma fieldwise_In {A B : Type} (f : A -> M B) o r key v :
  fieldwise f o r -> In (key, v) o ->
  exists d, In (key, d) r /\ returns (f v) d.
Proof.
  induction 1 as [| [k x] [k' d] o' r' [Hk Hd] _ IH]; simpl in *;
    intros Hin; [contradiction |].
  destruct Hin as [Heq | Hin].
  - injection Heq as -> ->. exists d. subst k'. auto.
  - destruct (IH Hin) as [d' [Hin' Hd']]. exists d'. auto.
Qed.

Lemma ownFields_keys {A : Type} (o : list (string * A)) :
  Js.keys (ownFields o) = filter (fun k => negb (isProtoKey k)) (Js.keys o).
Proof.
  induction o as [| [k v] rest IH]; simpl; [reflexivity |].
  destruct (isProtoKey k); simpl; rewrite IH; reflexivity.
Qed.

Lemma ownFields_all {A : Type} (o : list (string * A)) :
  ~ In "__proto__" (Js.keys o) -> ownFields o = o.
Proof.
  induction o as [| [k v] rest IH]; simpl; intros Hno; [reflexivity |].
  unfold isProtoKey at 1. destruct (String.eqb_spec k "__proto__") as [-> | Hne].
  - exfalso. apply Hno. left. reflexivity.
  - simpl. rewrite IH; [reflexivity |]. intros Hin. apply Hno. right. exact Hin.
Qed.

(** The loop of [convertObject], started from any object whose keys are
    disjoint from the ones still to be visited: when it returns, it has
    added one own property per field not named [__proto__]. *)
Lemma forEachFrom_assign_returns {A B : Type} (f : A -> M B)
      (o : list (string * A)) :
  NoDup (Js.keys o) ->
  forall (acc r : list (string * B)),
    (forall k, In k (Js.keys o) -> ~ In k (Js.keys acc)) ->
    returns (forEachFrom (fun key v result =>
                            d <- f v ;; ret (Js.assign result key d)) o acc) r ->
    exists ds, fieldwise f (ownFields o) ds /\ r = (acc ++ ds)%list.
Proof.
  induction o as [| [k v] rest IH]; intros Hnd acc r Hdisj; simpl.
  - intros Hr. apply (proj1 (ret_returns _ _)) in Hr. subst r.
    exists []. split; [constructor | now rewrite app_nil_r].
  - inversion Hnd as [| k' ks Hnotin Hnd']; subst.
    assert (Hk : ~ In k (Js.keys acc)) by (apply Hdisj; left; reflexivity).
    intros Hr. apply bind_returns in Hr. destruct Hr as [r1 [Hr1 Hrest]].
    apply bind_returns in Hr1. destruct Hr1 as [d [Hd Hassign]].
    apply (proj1 (ret_returns _ _)) in Hassign. subst r1.
    destruct (isProtoKey k) eqn:Hproto.
    + rewrite assign_proto in Hrest by exact Hproto.
      apply (IH Hnd') in Hrest; [exact Hrest |].
      intros k0 Hin. apply Hdisj. right. exact Hin.
    + rewrite assign_fresh in Hrest by assumption.
      apply (IH Hnd') in Hrest.
      * destruct Hrest as [ds [Hds ->]]. exists ((k, d) :: ds). split.
        -- constructor; [split; [reflexivity | exact Hd] | exact Hds].
        -- rewrite <- app_assoc. reflexivity.
      * intros k0 Hin Hin'. unfold Js.keys in Hin'.
        rewrite map_app in Hin'. apply in_app_or in Hin'.
        destruct Hin' as [Hin' | [<- | []]].
        -- exact (Hdisj k0 (or_intror Hin) Hin').
        -- exact (Hnotin Hin).
Qed.

(** ** Reference decoding *)

Lemma append_assoc (a b c : string) : (a ++ b) ++ c = a ++ (b ++ c).
Proof. induction a as [| ch a IH]; simpl; [reflexivity | now rewrite IH]. Qed.

Lemma DatabaseId_isEqual_spec (a b : DatabaseId) :
  DatabaseId_isEqual a b = true <-> a = b.
Proof.
  unfold DatabaseId_isEqual. destruct a as [pa da], b as [pb db]; simpl.
  rewrite andb_true_iff, !String.eqb_eq. split.
  - intros [-> ->]. reflexivity.
  - intros H. injection H. auto.
Qed.

Lemma foreignReferenceMessage_names key databaseId expectedDatabaseId :
  namesDatabaseId (foreignReferenceMessage key databaseId expectedDatabaseId)
                  databaseId /\
  namesDatabaseId (foreignReferenceMessage key databaseId expectedDatabaseId)
                  expectedDatabaseId.
Proof.
  unfold namesDatabaseId, foreignReferenceMessage, renderDatabaseId. split.
  - exists ("Document " ++ canonicalString (path key) ++
            " contains a document " ++
            "reference within a different database (").
    eexists. rewrite !append_assoc. reflexivity.
  - exists ("Document " ++ canonicalString (path key) ++
            " contains a document " ++
            "reference within a different database (" ++
            projectId databaseId ++ "/" ++ database databaseId ++
            ") which is not " ++
            "supported. It will be treated as a reference in the current " ++
            "database (").
    eexists. rewrite !append_assoc. reflexivity.
Qed.

(** [convertDocumentKey], one case for each way through lines 149-168. *)
Lemma convertDocumentKey_cases name expectedDatabaseId :
  convertDocumentKey name expectedDatabaseId =
  match fromString name with
  | Failed log error => (log, Threw (Thrown error))
  | Done resourcePath =>
      if isValidResourceName resourcePath
      then match popFirst resourcePath 5 with
           | Failed log error => (log, Threw (Thrown error))
           | Done rest =>
               match validateDocumentKey rest with
               | Failed log error => (log, Threw (Thrown error))
               | Done _ =>
                   (if DatabaseId_isEqual (embeddedDatabaseId resourcePath)
                                          expectedDatabaseId
                    then []
                    else [foreignReferenceMessage
                            {| path := rest |} (embeddedDatabaseId resourcePath)
                            expectedDatabaseId],
                    Returned {| path := rest |})
               end
           end
      else ([assertionMessage ("ReferenceValue is not valid " ++ name)],
            Threw (ReferenceValueIsNotValid name))
  end.
Proof.
  unfold convertDocumentKey.
  destruct (fromString name) as [resourcePath | log error]; simpl;
    [| reflexivity].
  destruct (isValidResourceName resourcePath); simpl; [| reflexivity].
  destruct (popFirst resourcePath 5) as [rest | log error]; simpl;
    [| reflexivity].
  unfold newDocumentKey.
  destruct (validateDocumentKey rest) as [[] | log error]; simpl;
    [| reflexivity].
  fold (embeddedDatabaseId resourcePath).
  destruct (DatabaseId_isEqual (embeddedDatabaseId resourcePath)
                               expectedDatabaseId); reflexivity.
Qed.

Lemma convertDocumentKey_parsed name expectedDatabaseId :
  convertDocumentKey name expectedDatabaseId =
  match parseReference name with
  | Some (databaseId, key) =>
      (foreignDiagnostic expectedDatabaseId name, Returned key)
  | None =>
      (logged (convertDocumentKey name expectedDatabaseId),
       outcome (convertDocumentKey name expectedDatabaseId))
  end.
Proof.
  unfold foreignDiagnostic.
  destruct (parseReference name) as [[databaseId key] |] eqn:E;
    [| apply surjective_pairing].
  rewrite convertDocumentKey_cases. unfold parseReference in E.
  destruct (fromString name) as [resourcePath | log error]; [| discriminate].
  destruct (isValidResourceName resourcePath); [| discriminate].
  destruct (popFirst resourcePath 5) as [rest | log error]; [| discriminate].
  destruct (validateDocumentKey rest) as [[] | log error]; [| discriminate].
  injection E as <- <-. reflexivity.
Qed.

Lemma convertDocumentKey_unparsed name expectedDatabaseId :
  parseReference name = None <-> throws (convertDocumentKey name expectedDatabaseId).
Proof.
  rewrite convertDocumentKey_cases. unfold parseReference, throws, outcome.
  destruct (fromString name) as [resourcePath | log error]; simpl.
  - destruct (isValidResourceName resourcePath); simpl.
    + destruct (popFirst resourcePath 5) as [rest | log error]; simpl.
      * destruct (validateDocumentKey rest) as [[] | log error]; simpl.
        -- split; [discriminate | intros [f Hf]; discriminate].
        -- split; [eauto | reflexivity].
      * split; [eauto | reflexivity].
    + split; [eauto | reflexivity].
  - split; [eauto | reflexivity].
Qed.

(** The three variants differ only in the handle they wrap the key in. *)
Lemma UserDataWriter_reference firestore name stb :
  convertValue (W := UserDataWriter firestore) (ReferenceValue name) stb =
  (key <- convertDocumentKey name (Firestore_databaseId firestore) ;;
   ret (DocumentReference_forKey key firestore)).
Proof. reflexivity. Qed.

Lemma ExpUserDataWriter_reference firestore name stb :
  convertValue (W := ExpUserDataWriter firestore) (ReferenceValue name) stb =
  (key <- convertDocumentKey name (Exp_databaseId firestore) ;;
   ret (NewExpDocumentReference firestore key)).
Proof. reflexivity. Qed.

Lemma LiteUserDataWriter_reference firestore name stb :
  convertValue (W := LiteUserDataWriter firestore) (ReferenceValue name) stb =
  (key <- convertDocumentKey name (Lite_databaseId firestore) ;;
   ret (NewLiteDocumentReference firestore key)).
Proof. reflexivity. Qed.

Lemma bind_ret_handle {A B : Type} (m : M A) (h : A -> B) :
  bind m (fun a => ret (h a)) =
  (logged m, match outcome m with
             | Returned a => Returned (h a)
             | Threw f => Threw f
             end).
Proof.
  destruct m as [l [a | f]]; simpl; [rewrite app_nil_r |]; reflexivity.
Qed.

Lemma writerOf_reference variant name stb :
  convertValue (W := writerOf variant) (ReferenceValue name) stb =
  (logged (convertDocumentKey name (databaseIdOf variant)),
   match outcome (convertDocumentKey name (databaseIdOf variant)) with
   | Returned key => Returned (handleOf variant key)
   | Threw f => Threw f
   end).
Proof. destruct variant; simpl; apply bind_ret_handle. Qed.

(** C1.  For a reference whose name is a document resource name (it parses,
    passes the check of line 151, has the five leading segments that line
    155 strips, and what is left is accepted as a key),
    [convertDocumentKey] returns the key made of the parsed path
    without its first five segments, whatever the expected database identity
    is.  When the identity embedded in the name (segment 1 as project,
    segment 3 as database) equals the expected one nothing is logged; when it
    differs exactly one diagnostic is logged, which names both identities,
    and the same key is returned.  Each of the three writers decodes the
    reference to its handle on that key, with the same log. *)
Theorem convertDocumentKey_valid_name
        (name : string) (expected : DatabaseId)
        (resourcePath rest : ResourcePath) :
  fromString name = Done resourcePath ->
  isValidResourceName resourcePath = true ->
  popFirst resourcePath 5 = Done rest ->
  validateDocumentKey rest = Done tt ->
  let key := {| path := rest |} in
  let databaseId :=
    {| projectId := get resourcePath 1; database := get resourcePath 3 |} in
  returns (convertDocumentKey name expected) key /\
  (databaseId = expected -> logged (convertDocumentKey name expected) = []) /\
  (databaseId <> expected ->
   exists msg, logged (convertDocumentKey name expected) = [msg] /\
               namesDatabaseId msg databaseId /\
               namesDatabaseId msg expected) /\
  (forall firestore stb,
      Firestore_databaseId firestore = expected ->
      convertValue (W := UserDataWriter firestore) (ReferenceValue name) stb =
      (logged (convertDocumentKey name expected),
       Returned (DocumentReference_forKey key firestore))) /\
  (forall firestore stb,
      Exp_databaseId firestore = expected ->
      convertValue (W := ExpUserDataWriter firestore) (ReferenceValue name) stb =
      (logged (convertDocumentKey name expected),
       Returned (NewExpDocumentReference firestore key))) /\
  (forall firestore stb,
      Lite_databaseId firestore = expected ->
      convertValue (W := LiteUserDataWriter firestore) (ReferenceValue name) stb =
      (logged (convertDocumentKey name expected),
       Returned (NewLiteDocumentReference firestore key))).
Proof.
  intros Hparsed Hvalid Hrest Hkey key databaseId.
  assert (Hcase : convertDocumentKey name expected =
                  (if DatabaseId_isEqual databaseId expected
                   then []
                   else [foreignReferenceMessage key databaseId expected],
                   Returned key)).
  { rewrite convertDocumentKey_cases, Hparsed, Hvalid, Hrest, Hkey.
    reflexivity. }
  assert (Hret : returns (convertDocumentKey name expected) key)
    by (rewrite Hcase; reflexivity).
  split; [exact Hret |].
  split; [| split].
  - intros Hsame. rewrite Hcase.
    rewrite (proj2 (DatabaseId_isEqual_spec _ _) Hsame). reflexivity.
  - intros Hforeign. rewrite Hcase.
    destruct (DatabaseId_isEqual databaseId expected) eqn:E.
    + apply DatabaseId_isEqual_spec in E. contradiction.
    + eexists. split; [reflexivity |]. apply foreignReferenceMessage_names.
  - unfold returns in Hret.
    repeat split; intros firestore stb Hdb.
    + rewrite UserDataWriter_reference, Hdb, bind_ret_handle, Hret. reflexivity.
    + rewrite ExpUserDataWriter_reference, Hdb, bind_ret_handle, Hret.
      reflexivity.
    + rewrite LiteUserDataWriter_reference, Hdb, bind_ret_handle, Hret.
      reflexivity.
Qed.

(** ** Properties of [convertValue] for an arbitrary writer *)

Lemma bind_throws_r {A B : Type} (m : M A) (k : A -> M B) (a : A) :
  returns m a -> throws (k a) -> throws (bind m k).
Proof.
  unfold returns, throws, outcome, bind. intros Ha [f Hf].
  destruct m as [l [a' | f']]; simpl in *; [| discriminate].
  injection Ha as ->. destruct (k a) as [l' o]. simpl in *. eauto.
Qed.

Lemma mapM_throws {A B : Type} (f : A -> M B) (l : list A) (a : A) :
  In a l -> throws (f a) -> throws (mapM f l).
Proof.
  induction l as [| x rest IH]; simpl; intros Hin Ha; [contradiction |].
  destruct (returns_or_throws (f x)) as [[b Hb] | Hx].
  - destruct Hin as [-> | Hin].
    + exfalso. exact (returns_not_throws Hb Ha).
    + apply (bind_throws_r _ Hb). apply bind_throws_l. exact (IH Hin Ha).
  - apply bind_throws_l. exact Hx.
Qed.

Lemma forEachFrom_throws {A B R : Type} (f : A -> M B) (g : R -> string -> B -> R)
      (o : list (string * A)) (key : string) (v : A) :
  In (key, v) o -> throws (f v) ->
  forall acc, throws (forEachFrom (fun k x result =>
                                     d <- f x ;; ret (g result k d)) o acc).
Proof.
  induction o as [| [k x] rest IH]; simpl; intros Hin Hv acc; [contradiction |].
  destruct (returns_or_throws (d <- f x ;; ret (g acc k d))) as [[r Hr] | Hx].
  - apply (bind_throws_r _ Hr). destruct Hin as [Heq | Hin].
    + injection Heq as -> ->. exfalso.
      apply bind_returns in Hr. destruct Hr as [d [Hd _]].
      exact (returns_not_throws Hd Hv).
    + exact (IH Hin Hv r).
  - apply bind_throws_l. exact Hx.
Qed.

Lemma forEachFrom_ext {A R : Type} (fn fn' : string -> A -> R -> M R)
      (o : list (string * A)) :
  Forall (fun kv => forall result, fn (fst kv) (snd kv) result =
                                   fn' (fst kv) (snd kv) result) o ->
  forall acc, forEachFrom fn o acc = forEachFrom fn' o acc.
Proof.
  induction 1 as [| [k v] rest Hkv _ IH]; simpl; intros acc; [reflexivity |].
  simpl in Hkv. rewrite Hkv.
  unfold bind. destruct (fn' k v acc) as [l [r | f]]; [| reflexivity].
  rewrite IH. reflexivity.
Qed.

Lemma forEachFrom_all_return {A B : Type} (f : A -> M B)
      (o : list (string * A)) (acc : list (string * B)) :
  (forall key v, In (key, v) o -> exists d, returns (f v) d) ->
  exists r, returns (forEachFrom (fun key v result =>
                                    d <- f v ;; ret (Js.assign result key d))
                                 o acc) r.
Proof.
  revert acc. induction o as [| [k v] rest IH]; intros acc Hall; simpl.
  - exists acc. reflexivity.
  - destruct (Hall k v (or_introl eq_refl)) as [d Hd].
    destruct (IH (Js.assign acc k d)) as [r Hr].
    { intros key x Hin. apply (Hall key x). right. exact Hin. }
    exists r. apply bind_returns. exists (Js.assign acc k d). split; [| exact Hr].
    apply bind_returns. exists d. split; [exact Hd | reflexivity].
Qed.



Section WriterProperties.

Context {W : AbstractUserDataWriter}.

Lemma convertValue_array values stb :
  convertValue (ArrayValue values) stb =
  (elements <- convertArray values stb ;; ret (JsArray elements)).
Proof. destruct values; reflexivity. Qed.

Lemma convertValue_map fields stb :
  convertValue (MapValue fields) stb =
  (result <- convertObject fields stb ;; ret (JsObject result)).
Proof. destruct fields; reflexivity. Qed.

Lemma convertValue_server_timestamp t p stb :
  convertValue (ServerTimestampValue t p) stb = convertServerTimestamp t p stb.
Proof. destruct stb, p; reflexivity. Qed.

Lemma array_returns values stb r :
  returns (convertValue (ArrayValue values) stb) r <->
  exists elements, returns (convertArray values stb) elements /\
                   r = JsArray elements.
Proof.
  rewrite convertValue_array, bind_returns.
  split; intros [elements [He Hr]]; exists elements; split; trivial.
  - apply (proj1 (ret_returns _ _)) in Hr. auto.
  - apply ret_returns. auto.
Qed.

Lemma map_returns fields stb r :
  returns (convertValue (MapValue fields) stb) r <->
  exists result, returns (convertObject fields stb) result /\
                 r = JsObject result.
Proof.
  rewrite convertValue_map, bind_returns.
  split; intros [result [He Hr]]; exists result; split; trivial.
  - apply (proj1 (ret_returns _ _)) in Hr. auto.
  - apply ret_returns. auto.
Qed.

(** C2, as amended.  A wire value with no recognised tag makes
    [convertValue] throw the invalid-value fault, after logging the assertion
    message.  [convertDocumentKey] throws, and returns nothing, for a
    reference name that does not parse, that fails the check of line 151,
    that has no five leading segments to strip, or whose remaining path is
    refused as a key; each of the three writers
    then throws the same fault with the same log.  A fault raised while
    decoding an element of an array or a field of a map ends the whole call:
    no array or object is returned with the remaining entries. *)
Theorem convertValue_faults :
  (forall json stb,
      convertValue (Untagged json) stb =
      ([assertionMessage ("Invalid value type: " ++ json)],
       Threw (InvalidValueType json))) /\
  (forall name expected,
      (forall log error,
          fromString name = Failed log error ->
          convertDocumentKey name expected = (log, Threw (Thrown error))) /\
      (forall resourcePath,
          fromString name = Done resourcePath ->
          isValidResourceName resourcePath = false ->
          convertDocumentKey name expected =
          ([assertionMessage ("ReferenceValue is not valid " ++ name)],
           Threw (ReferenceValueIsNotValid name))) /\
      (forall resourcePath log error,
          fromString name = Done resourcePath ->
          isValidResourceName resourcePath = true ->
          popFirst resourcePath 5 = Failed log error ->
          convertDocumentKey name expected = (log, Threw (Thrown error))) /\
      (forall resourcePath rest log error,
          fromString name = Done resourcePath ->
          isValidResourceName resourcePath = true ->
          popFirst resourcePath 5 = Done rest ->
          validateDocumentKey rest = Failed log error ->
          convertDocumentKey name expected = (log, Threw (Thrown error)))) /\
  (forall variant name stb f,
      outcome (convertDocumentKey name (databaseIdOf variant)) = Threw f ->
      convertValue (W := writerOf variant) (ReferenceValue name) stb =
      (logged (convertDocumentKey name (databaseIdOf variant)), Threw f)) /\
  (forall l stb v,
      In v l -> throws (convertValue v stb) ->
      throws (convertValue (ArrayValue (Some l)) stb)) /\
  (forall o stb key v,
      In (key, v) o -> throws (convertValue v stb) ->
      throws (convertValue (MapValue (Some o)) stb)).
Proof.
  split; [reflexivity |].
  split; [| split; [| split]].
  - intros name expected. repeat split.
    + intros log error Hf. rewrite convertDocumentKey_cases, Hf. reflexivity.
    + intros resourcePath Hp Hv.
      rewrite convertDocumentKey_cases, Hp, Hv. reflexivity.
    + intros resourcePath log error Hp Hv Hr.
      rewrite convertDocumentKey_cases, Hp, Hv, Hr. reflexivity.
    + intros resourcePath rest log error Hp Hv Hr Hk.
      rewrite convertDocumentKey_cases, Hp, Hv, Hr, Hk. reflexivity.
  - intros variant name stb f Hf. rewrite writerOf_reference, Hf. reflexivity.
  - intros l stb v Hin Hv. rewrite convertValue_array.
    apply bind_throws_l. unfold convertArray.
    exact (mapM_throws (fun v => convertValue v stb) _ _ Hin Hv).
  - intros o stb key v Hin Hv. rewrite convertValue_map.
    apply bind_throws_l. unfold convertObject, forEach.
    exact (forEachFrom_throws (fun v => convertValue v stb)
                              (fun result k d => Js.assign result k d)
                              _ _ _ Hin Hv []).
Qed.

(** C3.  Under policy ['previous'] a server-timestamp wrapper without a
    previous value decodes to null, and one with a previous value [V]
    decodes to what [V] decodes to under ['previous'].  Hence any value
    decodes under ['previous'] like the oldest value of its chain of
    pending writes, which is not a wrapper, or to null when the chain ends
    in a wrapper without a previous value. *)
Theorem convertValue_previous :
  (forall t, convertValue (ServerTimestampValue t None) previous = ret JsNull) /\
  (forall t V, convertValue (ServerTimestampValue t (Some V)) previous =
               convertValue V previous) /\
  (forall value,
      convertValue value previous =
      match oldestValue value with
      | Some concrete => convertValue concrete previous
      | None => ret JsNull
      end) /\
  (forall value concrete,
      oldestValue value = Some concrete -> isServerTimestamp concrete = false).
Proof.
  split; [reflexivity |]. split; [reflexivity |]. split.
  - induction value as [ | | | | | t p IH | | | | | | | ]
      using Value_nested_ind; try reflexivity.
    destruct p as [v |]; simpl in *; [exact IH | reflexivity].
  - induction value as [ | | | | | t p IH | | | | | | | ]
      using Value_nested_ind; simpl; intros concrete Hold;
      try (injection Hold as <-; reflexivity).
    destruct p as [v |]; simpl in *; [exact (IH _ Hold) | discriminate].
Qed.

(** C4.  Under policy ['none'], which is also the policy of a call that
    supplies none, a server-timestamp wrapper decodes to null whether or
    not it carries a previous value. *)
Theorem convertValue_none (t : ProtoTimestamp) (p : option Value) :
  convertValue (ServerTimestampValue t p) none = ret JsNull /\
  convertValueDefault (ServerTimestampValue t p) = ret JsNull.
Proof. split; reflexivity. Qed.

(** C5, what the code does.  Under policy ['estimate'] a server-timestamp
    wrapper is decoded from the native [Timestamp] that [getLocalWriteTime]
    returns, read as a wire timestamp: its seconds are read and its
    nanoseconds are not, there being no [nanos] property on it.  Two
    wrappers whose local write times have the same seconds therefore decode
    alike, whatever their nanoseconds and their previous values. *)
Theorem convertValue_estimate
        (t t' : ProtoTimestamp) (p p' : option Value)
        (timestamp timestamp' : Timestamp) :
  getLocalWriteTime t = Done timestamp ->
  getLocalWriteTime t' = Done timestamp' ->
  Timestamp_seconds timestamp = Timestamp_seconds timestamp' ->
  convertValue (ServerTimestampValue t p) estimate =
  convertTimestamp
    (TimestampObject (Some (Js.Num (Timestamp_seconds timestamp))) None) /\
  convertValue (ServerTimestampValue t p) estimate =
  convertValue (ServerTimestampValue t' p') estimate.
Proof.
  intros Ht Ht' Hseconds.
  assert (Hone : forall u q ts,
             getLocalWriteTime u = Done ts ->
             convertValue (ServerTimestampValue u q) estimate =
             convertTimestamp
               (TimestampObject (Some (Js.Num (Timestamp_seconds ts))) None)).
  { intros u q ts Hu. simpl. rewrite Hu. simpl. apply bind_ret. }
  split; [exact (Hone _ _ _ Ht) |].
  rewrite (Hone _ _ _ Ht), (Hone _ _ _ Ht'), Hseconds. reflexivity.
Qed.



(** C7.  Decoding an array of [N] elements returns exactly when decoding
    each element on its own, under the same policy, returns; the result is
    then an array of length [N] that holds at each index what the element
    at that index decodes to. *)
Theorem convertValue_array_elementwise
        (l : list Value) (stb : ServerTimestampBehavior) (r : Decoded) :
  returns (convertValue (ArrayValue (Some l)) stb) r <->
  exists elements,
    r = JsArray elements /\
    List.length elements = List.length l /\
    forall i v, nth_error l i = Some v ->
                exists d, nth_error elements i = Some d /\
                          returns (convertValue v stb) d.
Proof.
  rewrite array_returns. unfold convertArray.
  split; intros [elements Hel]; exists elements.
  - destruct Hel as [He ->]. split; [reflexivity |].
    apply Forall2_length_nth. apply mapM_returns in He. exact He.
  - destruct Hel as [-> Hel]. split; [| reflexivity].
    apply mapM_returns. apply Forall2_length_nth. exact Hel.
Qed.

(** C8, what the code does.  A field named [__proto__] leaves no property in
    the decoded object: the map with the fields [__proto__] and [a] decodes to
    an object whose only key is [a].  For a map with distinct keys, none of
    them [__proto__], the object returned has exactly the keys of the map, in
    their order, each bound to what its value decodes to on its own under the
    same policy; it is returned whenever every value decodes.  A map whose
    field set is absent decodes to the empty object. *)
Theorem convertValue_map_fieldwise :
  (forall stb,
      convertValue (MapValue (Some [("__proto__", StringValue "x");
                                    ("a", StringValue "y")])) stb =
      ret (JsObject [("a", JsString "y")])) /\
  (forall o stb,
      NoDup (Js.keys o) ->
      ~ In "__proto__" (Js.keys o) ->
      (forall r,
          returns (convertValue (MapValue (Some o)) stb) r ->
          exists properties,
            r = JsObject properties /\
            Js.keys properties = Js.keys o /\
            forall key v, In (key, v) o ->
                          exists d, Js.lookup properties key = Some d /\
                                    returns (convertValue v stb) d) /\
      ((forall key v, In (key, v) o ->
                      exists d, returns (convertValue v stb) d) ->
       exists properties,
         returns (convertValue (MapValue (Some o)) stb) (JsObject properties))) /\
  (forall stb, convertValue (MapValue None) stb = ret (JsObject [])).
Proof.
  split; [intros stb; reflexivity |].
  split; [| intros stb; reflexivity].
  intros o stb Hnd Hno. split.
  - intros r Hr. apply map_returns in Hr. destruct Hr as [props [Hp ->]].
    unfold convertObject, forEach in Hp.
    apply (forEachFrom_assign_returns (fun v => convertValue v stb) o Hnd) in Hp;
      [| intros k _ []].
    destruct Hp as [ds [Hds Heq]]. simpl in Heq. subst props.
    rewrite (ownFields_all _ Hno) in Hds.
    exists ds. split; [reflexivity |].
    pose proof (fieldwise_keys Hds) as Hkeys.
    split; [exact Hkeys |].
    intros key v Hin.
    destruct (fieldwise_In key v Hds Hin) as [d [Hd Hret]].
    exists d. split; [| exact Hret].
    apply lookup_In_NoDup; [| exact Hd].
    rewrite Hkeys. exact Hnd.
  - intros Hall.
    destruct (forEachFrom_all_return (fun v => convertValue v stb) o [] Hall)
      as [props Hp].
    exists props. apply map_returns. exists props. split; [exact Hp | reflexivity].
Qed.

(** C9.  An array whose element list is absent decodes to the empty
    array, under every policy, without a fault and without a log entry. *)
Theorem convertValue_array_absent (stb : ServerTimestampBehavior) :
  convertValue (ArrayValue None) stb = ret (JsArray []).
Proof. reflexivity. Qed.

(** C10.  A wire value with no server-timestamp wrapper anywhere in its
    tree decodes alike, log and outcome, under any two policies. *)
Theorem convertValue_policy_irrelevant (value : Value) :
  noServerTimestamp value = true ->
  forall stb stb', convertValue value stb = convertValue value stb'.
Proof.
  induction value as [ | | | | | t p IH | | | | | values IH | fields IH | ]
    using Value_nested_ind; intros Hno stb stb'; try reflexivity.
  - discriminate.
  - rewrite !convertValue_array. f_equal. destruct values as [l |];
      [| reflexivity].
    unfold convertArray. apply mapM_ext. simpl in IH, Hno.
    rewrite forallb_forall in Hno. rewrite Forall_forall in IH |- *.
    intros v Hin. apply IH; auto.
  - rewrite !convertValue_map. f_equal. destruct fields as [o |];
      [| reflexivity].
    unfold convertObject, forEach. apply forEachFrom_ext. simpl in IH, Hno.
    rewrite forallb_forall in Hno. rewrite Forall_forall in IH |- *.
    intros [k v] Hin result.
    pose proof (IH _ Hin (Hno _ Hin) stb stb') as E. simpl in E |- *.
    rewrite E. reflexivity.
Qed.

End WriterProperties.

End DecoderProperties.

(** * Properties of whole traversals *)

Section TraversalProperties.

Context {C : Collaborators}.

(** ** Logs and faults of [bind], [mapM] and [forEach] *)

Lemma computation_eta {A : Type} (m : M A) : m = (logged m, outcome m).
Proof. destruct m; reflexivity. Qed.

Lemma bind_logged {A B : Type} (m : M A) (k : A -> M B) (a : A) :
  returns m a -> logged (bind m k) = (logged m ++ logged (k a))%list.
Proof.
  unfold returns. destruct m as [l [a' | f]]; simpl; [| discriminate].
  intros Ha. injection Ha as ->. destruct (k a); reflexivity.
Qed.

Lemma bind_threw {A B : Type} (m : M A) (k : A -> M B) (f : Fault) :
  outcome m = Threw f -> bind m k = (logged m, Threw f).
Proof.
  destruct m as [l [a | f']]; simpl; [discriminate |].
  intros Hf. injection Hf as ->. reflexivity.
Qed.

Lemma bind_outcome {A B : Type} (m : M A) (k : A -> M B) (a : A) :
  returns m a -> outcome (bind m k) = outcome (k a).
Proof.
  unfold returns. destruct m as [l [a' | f]]; simpl; [| discriminate].
  intros Ha. injection Ha as ->. destruct (k a); reflexivity.
Qed.

Lemma bind_threw_inv {A B : Type} (m : M A) (k : A -> M B) (f : Fault) :
  outcome (bind m k) = Threw f ->
  outcome m = Threw f \/ exists a, returns m a /\ outcome (k a) = Threw f.
Proof.
  destruct m as [l [a | f']]; simpl.
  - intros Hf. right. exists a. split; [reflexivity |].
    destruct (k a); exact Hf.
  - intros Hf. left. injection Hf as ->. reflexivity.
Qed.

Lemma Forall2_exists {A B : Type} (R : A -> B -> Prop) (l : list A) :
  (exists bs, Forall2 R l bs) <-> Forall (fun a => exists b, R a b) l.
Proof.
  split.
  - intros [bs Hbs]. induction Hbs; constructor; eauto.
  - induction 1 as [| a rest [b Hb] _ [bs Hbs]].
    + exists []. constructor.
    + exists (b :: bs). constructor; assumption.
Qed.

Lemma flat_map_ext_in {A B : Type} (f g : A -> list B) (l : list A) :
  (forall a, In a l -> f a = g a) -> flat_map f l = flat_map g l.
Proof.
  induction l as [| a rest IH]; simpl; intros Hfg; [reflexivity |].
  rewrite (Hfg a (or_introl eq_refl)), IH; [reflexivity |].
  intros x Hx. apply Hfg. right. exact Hx.
Qed.

Lemma flat_map_flat_map {A B D : Type} (g : B -> list D) (h : A -> list B)
      (l : list A) :
  flat_map g (flat_map h l) = flat_map (fun a => flat_map g (h a)) l.
Proof.
  induction l as [| a rest IH]; simpl; [reflexivity |].
  rewrite flat_map_app, IH. reflexivity.
Qed.

Lemma mapM_exists_returns {A B : Type} (f : A -> M B) (l : list A) :
  (exists bs, returns (mapM f l) bs) <->
  Forall (fun a => exists b, returns (f a) b) l.
Proof.
  rewrite <- Forall2_exists. split; intros [bs Hbs]; exists bs;
    apply mapM_returns; exact Hbs.
Qed.

Lemma mapM_logged {A B : Type} (f : A -> M B) (l : list A) (bs : list B) :
  returns (mapM f l) bs ->
  logged (mapM f l) = flat_map (fun a => logged (f a)) l.
Proof.
  revert bs. induction l as [| a rest IH]; intros bs Hbs; [reflexivity |].
  simpl in *. apply bind_returns in Hbs. destruct Hbs as [b [Hb Hrest]].
  rewrite (bind_logged _ Hb). f_equal.
  apply bind_returns in Hrest. destruct Hrest as [bs' [Hbs' _]].
  rewrite (bind_logged _ Hbs'). simpl. rewrite app_nil_r. exact (IH _ Hbs').
Qed.

Lemma mapM_threw_inv {A B : Type} (f : A -> M B) (l : list A) (e : Fault) :
  outcome (mapM f l) = Threw e -> exists a, In a l /\ outcome (f a) = Threw e.
Proof.
  induction l as [| a rest IH]; simpl; intros He; [discriminate |].
  apply bind_threw_inv in He. destruct He as [He | [b [_ He]]].
  - exists a. auto.
  - apply bind_threw_inv in He. destruct He as [He | [bs [_ He]]];
      [| discriminate].
    destruct (IH He) as [x [Hx Hfx]]. exists x. auto.
Qed.

(** The walk stops at the first element on which the callback throws: the
    fault is that element's, and the log ends with that element's log. *)
Lemma mapM_first_fault {A B : Type} (f : A -> M B) (before after : list A)
      (a : A) (e : Fault) :
  Forall (fun x => exists b, returns (f x) b) before ->
  outcome (f a) = Threw e ->
  mapM f (before ++ a :: after) =
  ((flat_map (fun x => logged (f x)) before ++ logged (f a))%list, Threw e).
Proof.
  intros Hbefore Ha. induction Hbefore as [| x rest [b Hb] _ IH]; simpl.
  - apply bind_threw. exact Ha.
  - rewrite (computation_eta (bind _ _)).
    rewrite (bind_logged _ Hb), (bind_outcome _ Hb).
    rewrite IH. simpl. rewrite <- app_assoc. reflexivity.
Qed.

Lemma mapM_map {A A' B : Type} (f : A' -> M B) (g : A -> A') (l : list A) :
  mapM f (map g l) = mapM (fun a => f (g a)) l.
Proof.
  induction l as [| a rest IH]; simpl; [reflexivity | rewrite IH; reflexivity].
Qed.

(** The callback of [convertObject], for a value decoder [f]. *)
#[warnings="-notation-for-abbreviation"]
Notation assigning f :=
  (fun key v result => bind (f v) (fun d => ret (Js.assign result key d))).

Lemma assigning_returns {A B : Type} (f : A -> M B) key v
      (acc r : list (string * B)) :
  returns (assigning f key v acc) r <->
  exists d, returns (f v) d /\ r = Js.assign acc key d.
Proof.
  rewrite bind_returns. split; intros [d [Hd Hr]]; exists d; split; trivial.
  - apply (proj1 (ret_returns _ _)) in Hr. auto.
  - apply ret_returns. auto.
Qed.

Lemma assigning_logged {A B : Type} (f : A -> M B) key v
      (acc : list (string * B)) :
  logged (assigning f key v acc) = logged (f v).
Proof.
  cbv beta. destruct (f v) as [l [d | e]]; simpl; [apply app_nil_r | reflexivity].
Qed.

Lemma assigning_outcome_threw {A B : Type} (f : A -> M B) key v
      (acc : list (string * B)) (e : Fault) :
  outcome (assigning f key v acc) = Threw e <-> outcome (f v) = Threw e.
Proof.
  cbv beta. destruct (f v) as [l [d | e']]; simpl; split; intros He;
    try discriminate; injection He as ->; reflexivity.
Qed.

Lemma forEachFrom_exists_returns {A B : Type} (f : A -> M B)
      (o : list (string * A)) (acc : list (string * B)) :
  (exists r, returns (forEachFrom (assigning f) o acc) r) <->
  Forall (fun kv => exists d, returns (f (snd kv)) d) o.
Proof.
  revert acc. induction o as [| [k v] rest IH]; intros acc; simpl.
  - split; [constructor | intros _; exists acc; reflexivity].
  - split.
    + intros [r Hr]. apply bind_returns in Hr. destruct Hr as [r1 [Hr1 Hrest]].
      apply assigning_returns in Hr1. destruct Hr1 as [d [Hd _]].
      constructor; [exists d; exact Hd | apply (IH r1); exists r; exact Hrest].
    + intros Hall. inversion Hall as [| kv o' [d Hd] Hrest]; subst.
      simpl in Hd. apply (IH (Js.assign acc k d)) in Hrest.
      destruct Hrest as [r Hr]. exists r. apply bind_returns.
      exists (Js.assign acc k d). split; [| exact Hr].
      apply assigning_returns. exists d. auto.
Qed.

Lemma forEachFrom_logged {A B : Type} (f : A -> M B) (o : list (string * A))
      (acc r : list (string * B)) :
  returns (forEachFrom (assigning f) o acc) r ->
  logged (forEachFrom (assigning f) o acc) =
  flat_map (fun kv => logged (f (snd kv))) o.
Proof.
  revert acc. induction o as [| [k v] rest IH]; intros acc Hr; [reflexivity |].
  simpl in *. apply bind_returns in Hr. destruct Hr as [r1 [Hr1 Hrest]].
  rewrite (bind_logged _ Hr1), assigning_logged. f_equal. exact (IH _ Hrest).
Qed.

Lemma forEachFrom_threw_inv {A B : Type} (f : A -> M B) (o : list (string * A))
      (acc : list (string * B)) (e : Fault) :
  outcome (forEachFrom (assigning f) o acc) = Threw e ->
  exists key v, In (key, v) o /\ outcome (f v) = Threw e.
Proof.
  revert acc. induction o as [| [k v] rest IH]; intros acc He; simpl in *;
    [discriminate |].
  apply bind_threw_inv in He. destruct He as [He | [r1 [_ He]]].
  - apply assigning_outcome_threw in He. exists k, v. auto.
  - destruct (IH _ He) as [k' [v' [Hin Hv']]]. exists k', v'. auto.
Qed.


Lemma forEachFrom_map {A A' B : Type} (f : A' -> M B) (g : A -> A')
      (o : list (string * A)) (acc : list (string * B)) :
  forEachFrom (assigning f) (onValues g o) acc =
  forEachFrom (assigning (fun v => f (g v))) o acc.
Proof.
  revert acc. induction o as [| [k v] rest IH]; intros acc; simpl;
    [reflexivity |].
  unfold bind at 1 3. destruct (bind (f (g v)) _) as [l [r | e]];
    [rewrite IH |]; reflexivity.
Qed.

(** ** Traversals under an arbitrary writer *)

Section AnyWriter.

Context {W : AbstractUserDataWriter}.

Lemma forallb_fields {A : Type} (p : A -> bool) (o : list (string * A)) :
  forallb (fun kv => let '(_, v) := kv in p v) o = true <->
  Forall (fun kv => p (snd kv) = true) o.
Proof.
  rewrite forallb_forall, Forall_forall.
  split; intros H [k v] Hin; exact (H (k, v) Hin).
Qed.

Lemma flat_map_fields {A B : Type} (h : A -> list B) (o : list (string * A)) :
  flat_map (fun kv => let '(_, v) := kv in h v) o =
  flat_map (fun kv => h (snd kv)) o.
Proof. apply flat_map_ext_in. intros [k v] _. reflexivity. Qed.

Lemma array_outcome values stb :
  outcome (convertValue (ArrayValue values) stb) =
  match outcome (convertArray values stb) with
  | Returned elements => Returned (JsArray elements)
  | Threw f => Threw f
  end.
Proof. rewrite convertValue_array, bind_ret_handle. reflexivity. Qed.

Lemma array_logged values stb :
  logged (convertValue (ArrayValue values) stb) =
  logged (convertArray values stb).
Proof. rewrite convertValue_array, bind_ret_handle. reflexivity. Qed.

Lemma map_outcome fields stb :
  outcome (convertValue (MapValue fields) stb) =
  match outcome (convertObject fields stb) with
  | Returned result => Returned (JsObject result)
  | Threw f => Threw f
  end.
Proof. rewrite convertValue_map, bind_ret_handle. reflexivity. Qed.

Lemma map_logged fields stb :
  logged (convertValue (MapValue fields) stb) =
  logged (convertObject fields stb).
Proof. rewrite convertValue_map, bind_ret_handle. reflexivity. Qed.

Lemma array_exists_returns l stb :
  (exists d, returns (convertValue (ArrayValue (Some l)) stb) d) <->
  Forall (fun v => exists d, returns (convertValue v stb) d) l.
Proof.
  rewrite <- (mapM_exists_returns (fun v => convertValue v stb)). split.
  - intros [d Hd]. apply array_returns in Hd.
    destruct Hd as [elements [He _]]. exists elements. exact He.
  - intros [elements He]. exists (JsArray elements). apply array_returns.
    exists elements. auto.
Qed.

Lemma map_exists_returns o stb :
  (exists d, returns (convertValue (MapValue (Some o)) stb) d) <->
  Forall (fun kv => exists d, returns (convertValue (snd kv) stb) d) o.
Proof.
  rewrite <- (forEachFrom_exists_returns (fun v => convertValue v stb) o []).
  split.
  - intros [d Hd]. apply map_returns in Hd.
    destruct Hd as [result [Hr _]]. exists result. exact Hr.
  - intros [result Hr]. exists (JsObject result). apply map_returns.
    exists result. auto.
Qed.

(** *** Calls that log nothing when they return *)

Lemma ret_quiet {A : Type} (a : A) : quiet (ret a).
Proof. intros b _. reflexivity. Qed.

Lemma call_quiet {A : Type} (attempt : Attempt ExternalError A) :
  quiet (call attempt).
Proof.
  intros a Ha. destruct attempt as [a' | log error]; [reflexivity |].
  discriminate.
Qed.

Lemma fail_quiet {A : Type} (f : Fault) : quiet (fail (A := A) f).
Proof. intros a Ha. discriminate. Qed.

Lemma bind_quiet {A B : Type} (m : M A) (k : A -> M B) :
  quiet m -> (forall a, quiet (k a)) -> quiet (bind m k).
Proof.
  intros Hm Hk b Hb. apply bind_returns in Hb. destruct Hb as [a [Ha Hb]].
  rewrite (bind_logged _ Ha), (Hm a Ha), (Hk a b Hb). reflexivity.
Qed.

Lemma convertTimestamp_quiet t : quiet (convertTimestamp t).
Proof.
  apply bind_quiet; [apply call_quiet |]. intros normalized.
  apply bind_quiet; [apply call_quiet |]. intros _. apply ret_quiet.
Qed.

Lemma convertGeoPoint_quiet g : quiet (convertGeoPoint g).
Proof.
  apply bind_quiet; [apply call_quiet |]. intros _. apply ret_quiet.
Qed.

(** In a call that returns, every reference reached was decoded. *)
Lemma visited_return value :
  forall stb dec,
    returns (convertValue value stb) dec ->
    Forall (fun name => exists d, returns (convertReference name) d)
           (visitedReferences stb value).
Proof.
  induction value as [ | | | | | t p IH | | | | | values IH | fields IH | ]
    using Value_nested_ind; intros stb dec Hd; try (constructor; fail).
  - destruct stb, p as [q |]; simpl in *; try constructor.
    exact (IH _ _ Hd).
  - constructor; [exists dec; exact Hd | constructor].
  - destruct values as [l |]; [| constructor].
    assert (Hall : Forall (fun v => exists d, returns (convertValue v stb) d) l)
      by (apply array_exists_returns; exists dec; exact Hd).
    simpl in *. rewrite Forall_forall in IH, Hall |- *.
    intros name Hin. apply in_flat_map in Hin. destruct Hin as [v [Hv Hin]].
    destruct (Hall v Hv) as [dv Hdv].
    pose proof (IH v Hv _ _ Hdv) as Hvisited.
    rewrite Forall_forall in Hvisited. exact (Hvisited name Hin).
  - destruct fields as [o |]; [| constructor].
    assert (Hall : Forall (fun kv => exists d,
                               returns (convertValue (snd kv) stb) d) o)
      by (apply map_exists_returns; exists dec; exact Hd).
    simpl in *. rewrite Forall_forall in IH, Hall |- *.
    intros name Hin. apply in_flat_map in Hin. destruct Hin as [[k v] [Hv Hin]].
    destruct (Hall (k, v) Hv) as [dv Hdv].
    pose proof (IH (k, v) Hv _ _ Hdv) as Hvisited.
    rewrite Forall_forall in Hvisited. exact (Hvisited name Hin).
Qed.

Lemma logged_visited value :
  forall stb dec,
    returns (convertValue value stb) dec ->
    logged (convertValue value stb) =
    flat_map (fun name => logged (convertReference name))
             (visitedReferences stb value).
Proof.
  induction value as [ | | | | | t p IH | | | | | values IH | fields IH | ]
    using Value_nested_ind; intros stb dec Hd; try reflexivity.
  - exact (convertTimestamp_quiet t Hd).
  - destruct stb, p as [q |]; simpl in *; try reflexivity;
      try exact (IH _ _ Hd);
      (revert Hd; apply bind_quiet; [apply call_quiet |];
       intros ts; apply convertTimestamp_quiet).
  - revert Hd. simpl. apply bind_quiet; [apply call_quiet |].
    intros bytes. apply ret_quiet.
  - simpl. rewrite app_nil_r. reflexivity.
  - exact (convertGeoPoint_quiet g Hd).
  - destruct values as [l |]; [| reflexivity].
    assert (Hall : Forall (fun v => exists d, returns (convertValue v stb) d) l)
      by (apply array_exists_returns; exists dec; exact Hd).
    apply array_returns in Hd. destruct Hd as [elements [He _]].
    rewrite array_logged. unfold convertArray in *.
    rewrite (mapM_logged _ _ He). simpl. rewrite flat_map_flat_map.
    apply flat_map_ext_in. simpl in IH. rewrite Forall_forall in IH, Hall.
    intros v Hin. destruct (Hall v Hin) as [dv Hdv]. exact (IH v Hin _ _ Hdv).
  - destruct fields as [o |]; [| reflexivity].
    assert (Hall : Forall (fun kv => exists d,
                               returns (convertValue (snd kv) stb) d) o)
      by (apply map_exists_returns; exists dec; exact Hd).
    apply map_returns in Hd. destruct Hd as [result [Hr _]].
    rewrite map_logged. unfold convertObject, forEach in *.
    rewrite (forEachFrom_logged _ _ _ Hr). simpl.
    rewrite flat_map_fields, flat_map_flat_map.
    apply flat_map_ext_in. simpl in IH. rewrite Forall_forall in IH, Hall.
    intros kv Hin. destruct (Hall kv Hin) as [dv Hdv]. exact (IH kv Hin _ _ Hdv).
  - discriminate.
Qed.

(** A call returns exactly when the leaves it reaches decode. *)
Lemma returns_leaves value :
  forall stb,
    (exists d, returns (convertValue value stb) d) <->
    Forall (fun leaf => exists d, returns (convertValue leaf stb) d)
           (visitedLeaves stb value).
Proof.
  assert (Hleaf : forall (leaf : Value) stb,
             (exists d, returns (convertValue leaf stb) d) <->
             Forall (fun x => exists d, returns (convertValue x stb) d) [leaf]).
  { intros leaf stb. split.
    - intros H. constructor; [exact H | constructor].
    - intros H. inversion H. assumption. }
  induction value as [ | | | | | t p IH | | | | | values IH | fields IH | ]
    using Value_nested_ind; intros stb; try apply Hleaf.
  - destruct stb, p as [q |]; simpl visitedLeaves; try apply Hleaf.
    simpl in IH. exact (IH previous).
  - destruct values as [l |].
    + rewrite array_exists_returns. simpl in *.
      rewrite !Forall_forall. rewrite Forall_forall in IH. split.
      * intros Hall leaf Hin. apply in_flat_map in Hin.
        destruct Hin as [v [Hv Hin]].
        pose proof (proj1 (IH v Hv stb) (Hall v Hv)) as Hleaves.
        rewrite Forall_forall in Hleaves. exact (Hleaves leaf Hin).
      * intros Hall v Hv. apply (IH v Hv stb). apply Forall_forall.
        intros leaf Hin. apply Hall. apply in_flat_map. exists v. auto.
    + split; [constructor | intros _; eexists; reflexivity].
  - destruct fields as [o |].
    + rewrite map_exists_returns. simpl in *.
      rewrite !Forall_forall. rewrite Forall_forall in IH. split.
      * intros Hall leaf Hin. apply in_flat_map in Hin.
        destruct Hin as [[k v] [Hv Hin]].
        pose proof (proj1 (IH (k, v) Hv stb) (Hall (k, v) Hv)) as Hleaves.
        rewrite Forall_forall in Hleaves. exact (Hleaves leaf Hin).
      * intros Hall [k v] Hv. apply (IH (k, v) Hv stb). apply Forall_forall.
        intros leaf Hin. apply Hall. apply in_flat_map. exists (k, v). auto.
    + split; [constructor | intros _; eexists; reflexivity].
Qed.

Lemma scalars_return value :
  forall stb, reachesScalarsOnly stb value = true ->
              exists d, returns (convertValue value stb) d.
Proof.
  induction value as [ | | | | | t p IH | | | | | values IH | fields IH | ]
    using Value_nested_ind; intros stb Hs;
    try (eexists; reflexivity); try discriminate.
  - destruct stb, p as [q |]; simpl in *; try (eexists; reflexivity);
      try discriminate.
    exact (IH _ Hs).
  - destruct values as [l |]; [| eexists; reflexivity].
    apply array_exists_returns. simpl in IH, Hs.
    rewrite forallb_forall in Hs. rewrite Forall_forall in IH |- *.
    intros v Hin. exact (IH v Hin stb (Hs v Hin)).
  - destruct fields as [o |]; [| eexists; reflexivity].
    apply map_exists_returns. simpl in IH, Hs.
    apply forallb_fields in Hs. rewrite Forall_forall in IH, Hs |- *.
    intros kv Hin. exact (IH kv Hin stb (Hs kv Hin)).
Qed.

Lemma flat_map_nothing {A B : Type} (l : list A) :
  flat_map (fun _ : A => @nil B) l = [].
Proof. induction l as [| a rest IH]; simpl; [reflexivity | exact IH]. Qed.

Lemma scalars_without_references value :
  forall stb, reachesScalarsOnly stb value = true ->
              visitedReferences stb value = [].
Proof.
  induction value as [ | | | | | t p IH | | | | | values IH | fields IH | ]
    using Value_nested_ind; intros stb Hs; try reflexivity;
    try discriminate.
  - destruct stb, p as [q |]; simpl in *; try reflexivity. exact (IH _ Hs).
  - destruct values as [l |]; [| reflexivity]. simpl in *.
    rewrite forallb_forall in Hs. rewrite Forall_forall in IH.
    rewrite (flat_map_ext_in (visitedReferences stb) (fun _ => [])).
    + apply flat_map_nothing.
    + intros v Hin. exact (IH v Hin stb (Hs v Hin)).
  - destruct fields as [o |]; [| reflexivity]. simpl in *.
    apply forallb_fields in Hs. rewrite Forall_forall in IH, Hs.
    rewrite flat_map_fields.
    rewrite (flat_map_ext_in (fun kv => visitedReferences stb (snd kv))
                             (fun _ => [])).
    + apply flat_map_nothing.
    + intros kv Hin. exact (IH kv Hin stb (Hs kv Hin)).
Qed.

Lemma convertValue_withoutPrevious value :
  forall stb, stb <> previous ->
              convertValue value stb = convertValue (withoutPrevious value) stb.
Proof.
  induction value as [ | | | | | t p IH | | | | | values IH | fields IH | ]
    using Value_nested_ind; intros stb Hstb; try reflexivity.
  - destruct stb; [reflexivity | contradiction | reflexivity].
  - destruct values as [l |]; [| reflexivity].
    simpl withoutPrevious. rewrite !convertValue_array. unfold convertArray.
    rewrite mapM_map. f_equal. apply mapM_ext.
    simpl in IH. rewrite Forall_forall in IH |- *.
    intros v Hin. exact (IH v Hin stb Hstb).
  - destruct fields as [o |]; [| reflexivity].
    simpl withoutPrevious. rewrite !convertValue_map.
    unfold convertObject, forEach.
    pose proof (forEachFrom_map (fun v => convertValue v stb) withoutPrevious
                                o []) as E.
    unfold onValues in E. rewrite E. f_equal. apply forEachFrom_ext.
    simpl in IH. rewrite Forall_forall in IH |- *.
    intros [k v] Hin result.
    pose proof (IH (k, v) Hin stb Hstb) as E'. simpl in E' |- *.
    rewrite E'. reflexivity.
Qed.

Lemma convertValue_resolvePrevious value :
  convertValue value previous = convertValue (resolvePrevious value) previous.
Proof.
  induction value as [ | | | | | t p IH | | | | | values IH | fields IH | ]
    using Value_nested_ind; try reflexivity.
  - destruct p as [q |]; simpl in *; [exact IH | reflexivity].
  - destruct values as [l |]; [| reflexivity].
    simpl resolvePrevious. rewrite !convertValue_array. unfold convertArray.
    rewrite mapM_map. f_equal. apply mapM_ext.
    simpl in IH. exact IH.
  - destruct fields as [o |]; [| reflexivity].
    simpl resolvePrevious. rewrite !convertValue_map.
    unfold convertObject, forEach.
    pose proof (forEachFrom_map (fun v => convertValue v previous)
                                resolvePrevious o []) as E.
    unfold onValues in E. rewrite E. f_equal. apply forEachFrom_ext.
    simpl in IH. rewrite Forall_forall in IH |- *.
    intros [k v] Hin result.
    pose proof (IH (k, v) Hin) as E'. simpl in E' |- *.
    rewrite E'. reflexivity.
Qed.

Lemma resolvePrevious_noServerTimestamp value :
  noServerTimestamp (resolvePrevious value) = true.
Proof.
  induction value as [ | | | | | t p IH | | | | | values IH | fields IH | ]
    using Value_nested_ind; try reflexivity.
  - destruct p as [q |]; simpl in *; [exact IH | reflexivity].
  - destruct values as [l |]; [| reflexivity].
    simpl in *. rewrite forallb_forall. rewrite Forall_forall in IH.
    intros v Hin. apply in_map_iff in Hin. destruct Hin as [v' [<- Hin]].
    exact (IH v' Hin).
  - destruct fields as [o |]; [| reflexivity].
    simpl in *. apply forallb_fields. rewrite Forall_forall in IH |- *.
    intros kv Hin. apply in_map_iff in Hin. destruct Hin as [[k v] [<- Hin]].
    exact (IH (k, v) Hin).
Qed.

End AnyWriter.

(** ** Two writers on the same value *)

Lemma bind_observe {A A' B B' : Type} (gA : A -> A') (gB : B -> B')
      (keepLog : bool) (m1 m2 : M A) (k1 k2 : A -> M B) :
  observe gA keepLog m1 = observe gA keepLog m2 ->
  (forall a1 a2, gA a1 = gA a2 ->
                 observe gB keepLog (k1 a1) = observe gB keepLog (k2 a2)) ->
  observe gB keepLog (bind m1 k1) = observe gB keepLog (bind m2 k2).
Proof.
  unfold observe.
  destruct m1 as [l1 [a1 | f1]], m2 as [l2 [a2 | f2]]; simpl;
    intros Hm Hk; injection Hm as Hl Ha; try discriminate.
  - specialize (Hk a1 a2 Ha).
    destruct (k1 a1) as [l1' o1], (k2 a2) as [l2' o2]. simpl in *.
    injection Hk as Hl' Ho. rewrite Ho. f_equal.
    destruct keepLog; [congruence | reflexivity].
  - subst f2. rewrite Hl. reflexivity.
Qed.

Lemma ret_observe {A B : Type} (g : A -> B) (keepLog : bool) (a1 a2 : A) :
  g a1 = g a2 -> observe g keepLog (ret a1) = observe g keepLog (ret a2).
Proof.
  intros Hg. unfold observe. simpl. rewrite Hg. destruct keepLog; reflexivity.
Qed.

Lemma mapM_observe {A B B' : Type} (g : B -> B') (keepLog : bool)
      (f1 f2 : A -> M B) (l : list A) :
  Forall (fun a => observe g keepLog (f1 a) = observe g keepLog (f2 a)) l ->
  observe (map g) keepLog (mapM f1 l) = observe (map g) keepLog (mapM f2 l).
Proof.
  induction 1 as [| a rest Ha _ IH]; simpl; [reflexivity |].
  apply (bind_observe (gA := g)); [exact Ha |]. intros b1 b2 Hb.
  apply (bind_observe (gA := map g)); [exact IH |]. intros bs1 bs2 Hbs.
  apply ret_observe. simpl. rewrite Hb, Hbs. reflexivity.
Qed.

Lemma assign_onValues {A B : Type} (g : A -> B) (o : list (string * A))
      (key : string) (a : A) :
  onValues g (Js.assign o key a) = Js.assign (onValues g o) key (g a).
Proof.
  unfold Js.assign. destruct (String.eqb key "__proto__"); [reflexivity |].
  unfold onValues. induction o as [| [k x] rest IH]; simpl; [reflexivity |].
  destruct (String.eqb k key); simpl; [reflexivity |].
  rewrite IH. reflexivity.
Qed.

Lemma forEachFrom_observe {A B B' : Type} (g : B -> B') (keepLog : bool)
      (f1 f2 : A -> M B) (o : list (string * A)) :
  Forall (fun kv => observe g keepLog (f1 (snd kv)) =
                    observe g keepLog (f2 (snd kv))) o ->
  forall acc1 acc2,
    onValues g acc1 = onValues g acc2 ->
    observe (onValues g) keepLog (forEachFrom (assigning f1) o acc1) =
    observe (onValues g) keepLog (forEachFrom (assigning f2) o acc2).
Proof.
  induction 1 as [| [k v] rest Hv _ IH]; intros acc1 acc2 Hacc; simpl.
  - apply ret_observe. exact Hacc.
  - simpl in Hv.
    apply (bind_observe (gA := onValues g)).
    + apply (bind_observe (gA := g)); [exact Hv |]. intros d1 d2 Hd.
      apply ret_observe. rewrite !assign_onValues, Hacc, Hd. reflexivity.
    + intros r1 r2 Hr. apply IH. exact Hr.
Qed.

(** [convertValue] is uniform in the writer: two writers whose blobs have the
    same content and whose references are observed alike decode every value
    alike. *)
Lemma convertValue_observe (W1 W2 : AbstractUserDataWriter) (keepLog : bool) :
  (forall bytes, plain (convertBytes (AbstractUserDataWriter := W1) bytes) =
                 plain (convertBytes (AbstractUserDataWriter := W2) bytes)) ->
  (forall name,
      observe plain keepLog (convertReference (AbstractUserDataWriter := W1) name) =
      observe plain keepLog (convertReference (AbstractUserDataWriter := W2) name)) ->
  forall value stb,
    observe plain keepLog (convertValue (W := W1) value stb) =
    observe plain keepLog (convertValue (W := W2) value stb).
Proof.
  intros Hbytes Href value.
  induction value as [ | | | | | t p IH | | | | | values IH | fields IH | ]
    using Value_nested_ind; intros stb; try reflexivity.
  - destruct stb, p as [q |]; simpl in *; try reflexivity. apply IH.
  - simpl. apply (bind_observe (gA := fun bytes => bytes)); [reflexivity |].
    intros bytes bytes' <-. apply ret_observe. apply Hbytes.
  - apply Href.
  - rewrite !convertValue_array.
    apply (bind_observe (gA := map plain)).
    + destruct values as [l |]; [| reflexivity]. unfold convertArray.
      apply mapM_observe. simpl in IH. rewrite Forall_forall in IH |- *.
      intros v Hin. exact (IH v Hin stb).
    + intros e1 e2 He. apply ret_observe. simpl. rewrite He. reflexivity.
  - rewrite !convertValue_map.
    apply (bind_observe (gA := onValues plain)).
    + destruct fields as [o |]; [| reflexivity]. unfold convertObject, forEach.
      apply forEachFrom_observe; [| reflexivity].
      simpl in IH. rewrite Forall_forall in IH |- *.
      intros kv Hin. exact (IH kv Hin stb).
    + intros r1 r2 Hr. apply ret_observe. simpl.
      unfold onValues in Hr. rewrite Hr. reflexivity.
Qed.

(** ** The three writers *)

Lemma writerOf_convertReference variant name :
  convertReference (AbstractUserDataWriter := writerOf variant) name =
  (logged (convertDocumentKey name (databaseIdOf variant)),
   match outcome (convertDocumentKey name (databaseIdOf variant)) with
   | Returned key => Returned (handleOf variant key)
   | Threw f => Threw f
   end).
Proof. destruct variant; simpl; apply bind_ret_handle. Qed.

Lemma writerOf_bytes variant bytes :
  plain (convertBytes (AbstractUserDataWriter := writerOf variant) bytes) =
  PlainBytes bytes.
Proof. destruct variant; reflexivity. Qed.

Lemma handleOf_plain variant key : plain (handleOf variant key) = PlainKey key.
Proof. destruct variant; reflexivity. Qed.

Lemma convertDocumentKey_outcome name expected expected' :
  outcome (convertDocumentKey name expected) =
  outcome (convertDocumentKey name expected').
Proof.
  rewrite !convertDocumentKey_cases.
  destruct (fromString name) as [resourcePath | log error]; [| reflexivity].
  destruct (isValidResourceName resourcePath); [| reflexivity].
  destruct (popFirst resourcePath 5) as [rest | log error]; [| reflexivity].
  destruct (validateDocumentKey rest); reflexivity.
Qed.

Lemma convertDocumentKey_throws_log name expected expected' :
  throws (convertDocumentKey name expected) ->
  logged (convertDocumentKey name expected) =
  logged (convertDocumentKey name expected').
Proof.
  rewrite !convertDocumentKey_cases. unfold throws, outcome.
  destruct (fromString name) as [resourcePath | log error]; [| reflexivity].
  destruct (isValidResourceName resourcePath); [| reflexivity].
  destruct (popFirst resourcePath 5) as [rest | log error]; [| reflexivity].
  destruct (validateDocumentKey rest); [| reflexivity].
  simpl. intros [f Hf]. discriminate.
Qed.

Lemma convertDocumentKey_returns_log name expected key :
  returns (convertDocumentKey name expected) key ->
  logged (convertDocumentKey name expected) = foreignDiagnostic expected name.
Proof.
  intros Hkey. rewrite convertDocumentKey_parsed in Hkey |- *.
  destruct (parseReference name) as [[databaseId key'] |] eqn:E;
    [reflexivity |].
  exfalso. apply (returns_not_throws Hkey).
  apply (convertDocumentKey_unparsed name expected) in E.
  destruct E as [f Hf]. exists f. exact Hf.
Qed.

Lemma writerOf_returns_log variant name d :
  returns (convertReference (AbstractUserDataWriter := writerOf variant) name) d ->
  logged (convertReference (AbstractUserDataWriter := writerOf variant) name) =
  foreignDiagnostic (databaseIdOf variant) name.
Proof.
  rewrite writerOf_convertReference.
  destruct (outcome (convertDocumentKey name (databaseIdOf variant)))
    as [key | f] eqn:E.
  - intros _. exact (convertDocumentKey_returns_log _ _ E).
  - intros H. unfold returns, outcome in H. simpl in H. discriminate.
Qed.

(** X1.  Whatever the writer, decoding a value returns exactly when each
    value other than an array or a map that the traversal reaches decodes on
    its own: arrays, maps and the choice of a previous value add no fault of
    their own.  (Stated for trees without a field named [__proto__], on
    which every assignment of lines 100-102 defines an own property.) *)
Theorem convertValue_returns_iff_leaves
        (W : AbstractUserDataWriter) (value : Value)
        (stb : ServerTimestampBehavior) :
  noProtoKey value = true ->
  ((exists d, returns (convertValue (W := W) value stb) d) <->
   Forall (fun leaf => exists d, returns (convertValue (W := W) leaf stb) d)
          (visitedLeaves stb value)).
Proof. intros _. apply returns_leaves. Qed.

(** X2.  Whatever the writer, a value in which the traversal reaches nothing
    but null, booleans, numbers and strings, through arrays, maps and
    wrappers, is decoded without a fault and with an empty log. *)
Theorem convertValue_scalars
        (W : AbstractUserDataWriter) (value : Value)
        (stb : ServerTimestampBehavior) :
  reachesScalarsOnly stb value = true ->
  exists d, convertValue (W := W) value stb = ([], Returned d).
Proof.
  intros Hs. destruct (scalars_return (W := W) value stb Hs) as [d Hd].
  exists d. rewrite (computation_eta (convertValue value stb)).
  rewrite (logged_visited _ _ Hd), (scalars_without_references _ _ Hs).
  unfold returns in Hd. rewrite Hd. reflexivity.
Qed.

(** X3.  Whatever the writer, the log of a call that returns is the
    concatenation, in the order of the traversal, of what [convertReference]
    logged for each reference reached. *)
Theorem convertValue_log_follows_traversal
        (W : AbstractUserDataWriter) (value : Value)
        (stb : ServerTimestampBehavior) (d : Decoded) :
  returns (convertValue (W := W) value stb) d ->
  logged (convertValue (W := W) value stb) =
  flat_map (fun name => logged (convertReference (AbstractUserDataWriter := W)
                                                 name))
           (visitedReferences stb value).
Proof. apply logged_visited. Qed.

(** X5.  Decoding an array stops at its first element that throws: the call
    throws that element's fault, and its log is the logs of the elements
    before it followed by the log of that element; the elements after it
    leave no trace. *)
Theorem convertValue_array_first_fault
        (W : AbstractUserDataWriter) (before after : list Value) (v : Value)
        (stb : ServerTimestampBehavior) (f : Fault) :
  Forall (fun x => exists d, returns (convertValue (W := W) x stb) d) before ->
  outcome (convertValue (W := W) v stb) = Threw f ->
  convertValue (W := W) (ArrayValue (Some (before ++ v :: after)%list)) stb =
  ((flat_map (fun x => logged (convertValue (W := W) x stb)) before ++
    logged (convertValue (W := W) v stb))%list,
   Threw f).
Proof.
  intros Hbefore Hv. rewrite convertValue_array. unfold convertArray.
  erewrite mapM_first_fault; [reflexivity | exact Hbefore | exact Hv].
Qed.


(** X7.  Under the policies ['none'] and ['estimate'] the previous values of
    server-timestamp wrappers are never decoded, at any depth: the call
    behaves, log and outcome, as on the tree without them. *)
Theorem convertValue_ignores_previous
        (W : AbstractUserDataWriter) (value : Value)
        (stb : ServerTimestampBehavior) :
  stb <> previous ->
  convertValue (W := W) value stb =
  convertValue (W := W) (withoutPrevious value) stb.
Proof. apply convertValue_withoutPrevious. Qed.

(** X8.  Under the policy ['previous'] a call behaves, log and outcome, as on
    the tree in which every server-timestamp wrapper, at any depth, is
    replaced by the oldest value of its chain of pending writes, or by null;
    that tree holds no wrapper. *)
Theorem convertValue_previous_resolves
        (W : AbstractUserDataWriter) (value : Value) :
  convertValue (W := W) value previous =
  convertValue (W := W) (resolvePrevious value) previous /\
  noServerTimestamp (resolvePrevious value) = true.
Proof.
  split; [apply convertValue_resolvePrevious |
          apply resolvePrevious_noServerTimestamp].
Qed.

(** X9.  The three writers, in any client context, decode a value to the
    same content (blobs with the same bytes, references with the same key) or
    throw the same fault; when their expected database identities are equal
    they also log the same diagnostics. *)
Theorem convertValue_variants_agree
        (variant variant' : Variant) (value : Value)
        (stb : ServerTimestampBehavior) :
  content (convertValue (W := writerOf variant) value stb) =
  content (convertValue (W := writerOf variant') value stb) /\
  (databaseIdOf variant = databaseIdOf variant' ->
   logged (convertValue (W := writerOf variant) value stb) =
   logged (convertValue (W := writerOf variant') value stb)).
Proof.
  assert (Hbytes : forall bytes,
             plain (convertBytes (AbstractUserDataWriter := writerOf variant)
                                 bytes) =
             plain (convertBytes (AbstractUserDataWriter := writerOf variant')
                                 bytes))
    by (intros bytes; rewrite !writerOf_bytes; reflexivity).
  split.
  - assert (Hobs :
              observe plain false (convertValue (W := writerOf variant) value stb)
              = observe plain false
                        (convertValue (W := writerOf variant') value stb)).
    { apply convertValue_observe; [exact Hbytes |]. intros name.
      rewrite !writerOf_convertReference. unfold observe. simpl.
      rewrite (convertDocumentKey_outcome name (databaseIdOf variant)
                                          (databaseIdOf variant')).
      destruct (outcome (convertDocumentKey name (databaseIdOf variant')));
        [rewrite !handleOf_plain |]; reflexivity. }
    exact (f_equal snd Hobs).
  - intros Hdb.
    assert (Hobs :
              observe plain true (convertValue (W := writerOf variant) value stb)
              = observe plain true
                        (convertValue (W := writerOf variant') value stb)).
    { apply convertValue_observe; [exact Hbytes |]. intros name.
      rewrite !writerOf_convertReference, Hdb. unfold observe. simpl.
      destruct (outcome (convertDocumentKey name (databaseIdOf variant')));
        [rewrite !handleOf_plain |]; reflexivity. }
    exact (f_equal fst Hobs).
Qed.

(** X10.  The outcome of [convertDocumentKey], key or fault, does not depend
    on the expected database identity, and neither does the log of a call
    that throws.  The log of a call that returns is the diagnostic of lines
    157-167: one message when the embedded identity differs from the
    expected one, nothing otherwise. *)
Theorem convertDocumentKey_expected_database
        (name : string) (expected expected' : DatabaseId) :
  outcome (convertDocumentKey name expected) =
  outcome (convertDocumentKey name expected') /\
  (throws (convertDocumentKey name expected) ->
   logged (convertDocumentKey name expected) =
   logged (convertDocumentKey name expected')) /\
  (forall key,
      returns (convertDocumentKey name expected) key ->
      logged (convertDocumentKey name expected) =
      foreignDiagnostic expected name).
Proof.
  split; [apply convertDocumentKey_outcome |].
  split; [apply convertDocumentKey_throws_log |].
  intros key. apply convertDocumentKey_returns_log.
Qed.

(** X11.  Under each of the three writers, every reference reached by a call
    that returns was read off its name, and the log of the call holds exactly
    one diagnostic for each of them whose name embeds another database
    identity than the expected one, in the order of the traversal, and
    nothing else. *)
Theorem convertValue_diagnostics
        (variant : Variant) (value : Value) (stb : ServerTimestampBehavior)
        (d : Decoded) :
  returns (convertValue (W := writerOf variant) value stb) d ->
  logged (convertValue (W := writerOf variant) value stb) =
  flat_map (foreignDiagnostic (databaseIdOf variant))
           (visitedReferences stb value) /\
  Forall (fun name => exists databaseId key,
              parseReference name = Some (databaseId, key))
         (visitedReferences stb value).
Proof.
  intros Hd. pose proof (visited_return _ _ Hd) as Hvisited.
  rewrite Forall_forall in Hvisited. split.
  - rewrite (logged_visited _ _ Hd). apply flat_map_ext_in. intros name Hin.
    destruct (Hvisited name Hin) as [dn Hdn].
    exact (writerOf_returns_log _ _ Hdn).
  - apply Forall_forall. intros name Hin.
    destruct (Hvisited name Hin) as [dn Hdn].
    destruct (parseReference name) as [[databaseId key] |] eqn:E; [eauto |].
    exfalso. apply (convertDocumentKey_unparsed name (databaseIdOf variant)) in E.
    rewrite writerOf_convertReference in Hdn.
    destruct E as [f Hf]. unfold returns, outcome in Hdn, Hf. simpl in Hdn.
    rewrite Hf in Hdn. discriminate.
Qed.

End TraversalProperties.


(** ** The decoder on concrete values *)

Section Examples.

Import Sample.

Example falsy_payloads :
  map Js.truthy [Js.Num 0%float; Js.Num (-0)%float; Js.Num PrimFloat.nan;
                 Js.Str ""; Js.Str "0"; Js.Num 7%float]
  = [false; false; false; false; true; true].
Proof. vm_compute. reflexivity. Qed.

Example reference_same_database :
  convertValue (W := UserDataWriter firestore) (ReferenceValue documentName) none
  = ([], Returned (DocumentReference_forKey key firestore)).
Proof. vm_compute. reflexivity. Qed.

Example reference_other_database :
  convertValue (W := UserDataWriter otherFirestore)
               (ReferenceValue documentName) none
  = (["Document coll/doc contains a document reference within a different database (P/D) which is not supported. It will be treated as a reference in the current database (P/D2) instead."],
     Returned (DocumentReference_forKey key otherFirestore)).
Proof. vm_compute. reflexivity. Qed.

Example reference_too_short_for_the_check :
  convertValue (W := UserDataWriter firestore)
               (ReferenceValue "projects/P/documents") none
  = (["FIRESTORE (8.0.0) INTERNAL ASSERTION FAILED: ReferenceValue is not valid projects/P/documents"],
     Threw (ReferenceValueIsNotValid "projects/P/documents")).
Proof. vm_compute. reflexivity. Qed.

Example reference_to_a_database :
  convertValue (W := UserDataWriter firestore)
               (ReferenceValue "projects/P/databases/D") none
  = (["FIRESTORE (8.0.0) INTERNAL ASSERTION FAILED: Can't call popFirst() with less segments"],
     Threw (Thrown (AssertionFailed "Can't call popFirst() with less segments"))).
Proof. vm_compute. reflexivity. Qed.

Example reference_to_a_collection :
  convertValue (W := UserDataWriter firestore)
               (ReferenceValue "projects/P/databases/D/documents/coll") none
  = (["FIRESTORE (8.0.0) INTERNAL ASSERTION FAILED: Invalid DocumentKey with an odd number of segments: coll"],
     Threw (Thrown (AssertionFailed
                      "Invalid DocumentKey with an odd number of segments: coll"))).
Proof. vm_compute. reflexivity. Qed.

Example reference_with_empty_segment :
  convertValue (W := UserDataWriter firestore)
               (ReferenceValue "projects//databases/D/documents/coll/doc") none
  = ([], Threw (Thrown (InvalidPath
                          "projects//databases/D/documents/coll/doc"))).
Proof. vm_compute. reflexivity. Qed.

Example integer_string_payload :
  convertValue (W := UserDataWriter firestore)
               (IntegerValue (Js.Str "42")) none
  = ret (JsNumber 42%float).
Proof. vm_compute. reflexivity. Qed.

Example timestamp_keeps_nanoseconds :
  convertValue (W := UserDataWriter firestore)
               (TimestampValue (at_ 1%float 500%float)) none
  = ret (NewTimestamp 1%float 500%float).
Proof. vm_compute. reflexivity. Qed.

Example timestamp_out_of_range :
  convertValue (W := UserDataWriter firestore)
               (TimestampValue (at_ 1%float (-1)%float)) none
  = ([], Threw (Thrown (TimestampNanosecondsOutOfRange (-1)%float))).
Proof. vm_compute. reflexivity. Qed.

Example geo_point_out_of_range :
  convertValue (W := UserDataWriter firestore)
               (GeoPointValue {| latitude := Some 100%float;
                                 longitude := Some 0%float |}) none
  = ([], Threw (Thrown (LatitudeOutOfRange 100%float))).
Proof. vm_compute. reflexivity. Qed.

Example bytes_outside_base64 :
  convertValue (W := UserDataWriter firestore) (BytesValue "x!y") none
  = ([], Threw (Thrown (InvalidBase64 "x!y"))).
Proof. vm_compute. reflexivity. Qed.

Example nested_pending_writes :
  convertValue (W := UserDataWriter firestore)
               (ServerTimestampValue
                  (at_ 2%float 0%float)
                  (Some (ServerTimestampValue (at_ 1%float 0%float)
                                              (Some (StringValue "first")))))
               previous
  = ret (JsString "first").
Proof. reflexivity. Qed.

Example map_of_array :
  convertValue (W := LiteUserDataWriter {| Lite_databaseId :=
                                             Firestore_databaseId firestore |})
               (MapValue (Some [("a", ArrayValue (Some [NullValue;
                                                        BooleanValue true]));
                                ("b", BytesValue "eHl6")]))
               estimate
  = ret (JsObject [("a", JsArray [JsNull; JsBoolean true]);
                   ("b", NewBytes "eHl6")]).
Proof. vm_compute. reflexivity. Qed.

End Examples.

(** ** The properties at concrete inputs *)

Section Instances.

Import Sample.

Lemma convertDocumentKey_valid_name_witness :
  fromString documentName =
  Done ["projects"; "P"; "databases"; "D"; "documents"; "coll"; "doc"] /\
  returns (convertDocumentKey documentName sameDatabase)
          {| path := ["coll"; "doc"] |} /\
  logged (convertDocumentKey documentName sameDatabase) = [] /\
  returns (convertDocumentKey documentName otherDatabase)
          {| path := ["coll"; "doc"] |} /\
  exists msg,
    logged (convertDocumentKey documentName otherDatabase) = [msg] /\
    namesDatabaseId msg sameDatabase /\ namesDatabaseId msg otherDatabase.
Proof.
  assert (Hparsed :
            fromString documentName =
            Done ["projects"; "P"; "databases"; "D"; "documents"; "coll"; "doc"])
    by (vm_compute; reflexivity).
  assert (Hvalid :
            isValidResourceName
              ["projects"; "P"; "databases"; "D"; "documents"; "coll"; "doc"]
            = true) by (vm_compute; reflexivity).
  assert (Hrest :
            popFirst
              ["projects"; "P"; "databases"; "D"; "documents"; "coll"; "doc"] 5
            = Done ["coll"; "doc"]) by (vm_compute; reflexivity).
  assert (Heven : validateDocumentKey ["coll"; "doc"] = Done tt)
    by (vm_compute; reflexivity).
  split; [exact Hparsed |].
  destruct (convertDocumentKey_valid_name documentName sameDatabase
                                          Hparsed Hvalid Hrest Heven)
    as (Hkey & Hquiet & _).
  destruct (convertDocumentKey_valid_name documentName otherDatabase
                                          Hparsed Hvalid Hrest Heven)
    as (Hkey' & _ & Hlog & _).
  split; [exact Hkey |].
  split; [apply Hquiet; reflexivity |].
  split; [exact Hkey' |].
  apply Hlog. discriminate.
Defined.

Lemma convertValue_faults_witness :
  convertValue (W := UserDataWriter firestore)
               (ReferenceValue "projects/P/documents") none =
  ([assertionMessage "ReferenceValue is not valid projects/P/documents"],
   Threw (ReferenceValueIsNotValid "projects/P/documents")) /\
  throws (convertValue (W := writer)
                       (ArrayValue (Some [NullValue; Untagged "{}"])) none) /\
  throws (convertValue (W := writer)
                       (MapValue (Some [("a", NullValue); ("b", Untagged "{}")]))
                       none).
Proof.
  destruct (convertValue_faults (W := writer))
    as (Huntagged & Hkey & Hreference & Harray & Hmap).
  destruct (Hkey "projects/P/documents" sameDatabase) as (_ & Hcheck & _ & _).
  assert (Hparsed : fromString "projects/P/documents" =
                    Done ["projects"; "P"; "documents"])
    by (vm_compute; reflexivity).
  assert (Hinvalid : isValidResourceName ["projects"; "P"; "documents"] = false)
    by (vm_compute; reflexivity).
  pose proof (Hcheck _ Hparsed Hinvalid) as Hthrown.
  split.
  - assert (Hout : outcome (convertDocumentKey
                              "projects/P/documents"
                              (databaseIdOf (Classic firestore))) =
                   Threw (ReferenceValueIsNotValid "projects/P/documents")).
    { change (databaseIdOf (Classic firestore)) with sameDatabase.
      rewrite Hthrown. reflexivity. }
    pose proof (Hreference (Classic firestore) _ none _ Hout) as Href.
    change (databaseIdOf (Classic firestore)) with sameDatabase in Href.
    rewrite Hthrown in Href. exact Href.
  - split.
    + apply (Harray _ none (Untagged "{}")); [right; left; reflexivity |].
      exists (InvalidValueType "{}"). rewrite Huntagged. reflexivity.
    + apply (Hmap _ none "b" (Untagged "{}")); [right; left; reflexivity |].
      exists (InvalidValueType "{}"). rewrite Huntagged. reflexivity.
Defined.

(** C2, as the claim states it, fails for a reference whose name has
    another segment where a document resource name has [documents]: the name
    passes the check of line 151, its five leading segments are stripped, and
    the call returns a reference. *)
Lemma reference_without_documents_segment :
  fromString "projects/P/databases/D/elsewhere/coll/doc" =
  Done ["projects"; "P"; "databases"; "D"; "elsewhere"; "coll"; "doc"] /\
  convertValue (W := UserDataWriter firestore)
               (ReferenceValue "projects/P/databases/D/elsewhere/coll/doc")
               none =
  ([], Returned (DocumentReference_forKey {| path := ["coll"; "doc"] |}
                                          firestore)) /\
  ~ throws (convertValue
              (W := UserDataWriter firestore)
              (ReferenceValue "projects/P/databases/D/elsewhere/coll/doc")
              none).
Proof.
  split; [vm_compute; reflexivity |].
  split; [vm_compute; reflexivity |].
  intros [f Hf]. vm_compute in Hf. discriminate.
Qed.

Lemma convertValue_previous_witness :
  let pending :=
    ServerTimestampValue (at_ 2%float 0%float)
      (Some (ServerTimestampValue (at_ 1%float 0%float)
                                  (Some (StringValue "first")))) in
  oldestValue pending = Some (StringValue "first") /\
  isServerTimestamp (StringValue "first") = false /\
  convertValue (W := writer) pending previous =
  convertValue (W := writer) (StringValue "first") previous.
Proof.
  intros pending.
  destruct (convertValue_previous (W := writer)) as (_ & _ & Hchain & Hconcrete).
  split; [reflexivity |].
  split; [apply (Hconcrete pending); reflexivity |].
  rewrite (Hchain pending). reflexivity.
Defined.

Lemma convertValue_estimate_witness :
  getLocalWriteTime (at_ 1%float 500%float) =
  Done {| Timestamp_seconds := 1%float; Timestamp_nanoseconds := 500%float |} /\
  convertValue (W := writer)
               (ServerTimestampValue (at_ 1%float 500%float) None) estimate =
  ret (NewTimestamp 1%float 0%float) /\
  convertValue (W := writer)
               (ServerTimestampValue (at_ 1%float 500%float) None) estimate =
  convertValue (W := writer)
               (ServerTimestampValue (at_ 1%float 0%float)
                                     (Some (StringValue "first"))) estimate.
Proof.
  assert (Ht : getLocalWriteTime (at_ 1%float 500%float) =
               Done {| Timestamp_seconds := 1%float;
                       Timestamp_nanoseconds := 500%float |})
    by (vm_compute; reflexivity).
  assert (Ht' : getLocalWriteTime (at_ 1%float 0%float) =
                Done {| Timestamp_seconds := 1%float;
                        Timestamp_nanoseconds := 0%float |})
    by (vm_compute; reflexivity).
  split; [exact Ht |].
  destruct (@convertValue_estimate _ writer _ _ None
                                   (Some (StringValue "first")) _ _
                                   Ht Ht' eq_refl)
    as [Hdecoded Hsame].
  split; [rewrite Hdecoded; vm_compute; reflexivity | exact Hsame].
Defined.


Lemma convertValue_array_elementwise_witness :
  returns (convertValue (W := writer)
                        (ArrayValue (Some [StringValue "x"; NullValue])) none)
          (JsArray [JsString "x"; JsNull]).
Proof.
  apply convertValue_array_elementwise.
  exists [JsString "x"; JsNull].
  split; [reflexivity |]. split; [reflexivity |].
  intros [| [| [| i]]] v Hv; simpl in Hv; try discriminate;
    injection Hv as <-; eexists; split; reflexivity.
Defined.

Lemma convertValue_map_fieldwise_witness :
  NoDup (Js.keys [("a", StringValue "x"); ("b", NullValue)]) /\
  ~ In "__proto__" (Js.keys [("a", StringValue "x"); ("b", NullValue)]) /\
  (exists properties,
      returns (convertValue (W := writer)
                            (MapValue (Some [("a", StringValue "x");
                                             ("b", NullValue)])) none)
              (JsObject properties)) /\
  convertValue (W := writer)
               (MapValue (Some [("__proto__", StringValue "x");
                                ("a", StringValue "y")])) none =
  ret (JsObject [("a", JsString "y")]).
Proof.
  assert (Hkeys : NoDup (Js.keys [("a", StringValue "x"); ("b", NullValue)])).
  { constructor; [intros [H | []]; discriminate |].
    constructor; [intros [] | constructor]. }
  assert (Hno : ~ In "__proto__"
                  (Js.keys [("a", StringValue "x"); ("b", NullValue)])).
  { intros [H | [H | []]]; discriminate. }
  split; [exact Hkeys |]. split; [exact Hno |].
  destruct (convertValue_map_fieldwise (W := writer)) as (Hproto & Hfields & _).
  split; [| exact (Hproto none)].
  destruct (Hfields _ none Hkeys Hno) as (_ & Hall).
  apply Hall. intros key v [H | [H | []]]; injection H as <- <-;
    eexists; reflexivity.
Defined.

Lemma convertValue_policy_irrelevant_witness :
  let value :=
    MapValue (Some [("a", ArrayValue (Some [NullValue; IntegerValue (Js.Str "7")]));
                    ("r", ReferenceValue documentName)]) in
  noServerTimestamp value = true /\
  convertValue (W := writer) value estimate =
  convertValue (W := writer) value previous.
Proof.
  intros value. split; [reflexivity |].
  apply convertValue_policy_irrelevant. reflexivity.
Defined.

End Instances.


(** ** The traversal properties at concrete inputs *)

Section TraversalInstances.

Import Sample.

Lemma convertValue_returns_iff_leaves_witness :
  let value :=
    MapValue (Some [("t", TimestampValue (at_ 1%float 500%float));
                    ("l", ArrayValue (Some [ReferenceValue documentName;
                                            BytesValue "eHl6"]))]) in
  noProtoKey value = true /\
  exists d, returns (convertValue (W := writer) value none) d.
Proof.
  intros value.
  assert (Hno : noProtoKey value = true) by reflexivity.
  split; [exact Hno |].
  apply (proj2 (convertValue_returns_iff_leaves writer value none Hno)).
  repeat constructor; eexists; vm_compute; reflexivity.
Defined.

Lemma convertValue_scalars_witness :
  let value :=
    MapValue (Some [("a", ArrayValue (Some [NullValue; StringValue "x"]));
                    ("t", ServerTimestampValue
                            (at_ 1%float 0%float)
                            (Some (ReferenceValue "elsewhere")))]) in
  reachesScalarsOnly none value = true /\
  exists d, convertValue (W := writer) value none = ([], Returned d).
Proof.
  intros value.
  assert (Hs : reachesScalarsOnly none value = true) by reflexivity.
  split; [exact Hs |].
  exact (convertValue_scalars writer value none Hs).
Defined.

Lemma convertValue_log_follows_traversal_witness :
  let value :=
    ArrayValue (Some [ReferenceValue "projects/Q/databases/D/documents/c/d";
                      ReferenceValue documentName]) in
  exists d,
    returns (convertValue (W := writer) value none) d /\
    logged (convertValue (W := writer) value none) =
    flat_map (fun name => logged (convertReference
                                    (AbstractUserDataWriter := writer) name))
             (visitedReferences none value).
Proof.
  intros value. eexists. split; [vm_compute; reflexivity |].
  eapply convertValue_log_follows_traversal. vm_compute. reflexivity.
Defined.

Lemma convertValue_array_first_fault_witness :
  Forall (fun x => exists d, returns (convertValue (W := writer) x none) d)
         [NullValue] /\
  outcome (convertValue (W := writer) (Untagged "{}") none) =
  Threw (InvalidValueType "{}") /\
  convertValue (W := writer)
               (ArrayValue (Some [NullValue; Untagged "{}";
                                  ReferenceValue documentName])) none =
  ([assertionMessage "Invalid value type: {}"], Threw (InvalidValueType "{}")).
Proof.
  assert (Hbefore : Forall (fun x => exists d,
                                returns (convertValue (W := writer) x none) d)
                           [NullValue]).
  { constructor; [eexists; reflexivity | constructor]. }
  assert (Hv : outcome (convertValue (W := writer) (Untagged "{}") none) =
               Threw (InvalidValueType "{}")) by reflexivity.
  split; [exact Hbefore |]. split; [exact Hv |].
  exact (convertValue_array_first_fault
           writer [ReferenceValue documentName] (Untagged "{}") none
           Hbefore Hv).
Defined.


Lemma convertValue_ignores_previous_witness :
  let value :=
    ArrayValue (Some [ServerTimestampValue (at_ 1%float 0%float)
                                           (Some (Untagged "{}"))]) in
  estimate <> previous /\
  convertValue (W := writer) value estimate =
  convertValue (W := writer) (withoutPrevious value) estimate.
Proof.
  intros value.
  assert (Hstb : estimate <> previous) by discriminate.
  split; [exact Hstb |].
  exact (convertValue_ignores_previous writer value Hstb).
Defined.

Lemma convertValue_variants_agree_witness :
  let variant := Classic otherFirestore in
  let variant' := Lite {| Lite_databaseId := otherDatabase |} in
  let value := ArrayValue (Some [BytesValue "eHl6"; ReferenceValue documentName]) in
  databaseIdOf variant = databaseIdOf variant' /\
  logged (convertValue (W := writerOf variant) value none) =
  logged (convertValue (W := writerOf variant') value none).
Proof.
  intros variant variant' value.
  assert (Hdb : databaseIdOf variant = databaseIdOf variant') by reflexivity.
  split; [exact Hdb |].
  exact (proj2 (convertValue_variants_agree variant variant' value none) Hdb).
Defined.

Lemma convertDocumentKey_expected_database_witness :
  throws (convertDocumentKey "projects/P/databases/D" otherDatabase) /\
  logged (convertDocumentKey "projects/P/databases/D" otherDatabase) =
  logged (convertDocumentKey "projects/P/databases/D" sameDatabase) /\
  returns (convertDocumentKey documentName otherDatabase) key /\
  logged (convertDocumentKey documentName otherDatabase) =
  foreignDiagnostic otherDatabase documentName.
Proof.
  assert (Hthrows : throws (convertDocumentKey "projects/P/databases/D"
                                               otherDatabase))
    by (eexists; vm_compute; reflexivity).
  assert (Hreturns : returns (convertDocumentKey documentName otherDatabase) key)
    by (vm_compute; reflexivity).
  split; [exact Hthrows |].
  split.
  - exact (proj1 (proj2 (convertDocumentKey_expected_database
                           "projects/P/databases/D" otherDatabase sameDatabase))
                 Hthrows).
  - split; [exact Hreturns |].
    exact (proj2 (proj2 (convertDocumentKey_expected_database
                           documentName otherDatabase sameDatabase))
                 key Hreturns).
Defined.

Lemma convertValue_diagnostics_witness :
  let value :=
    MapValue (Some [("here", ReferenceValue documentName);
                    ("there",
                     ReferenceValue "projects/Q/databases/D/documents/c/d")]) in
  exists d,
    returns (convertValue (W := writerOf (Exp {| Exp_databaseId := sameDatabase |}))
                          value none) d /\
    logged (convertValue (W := writerOf (Exp {| Exp_databaseId := sameDatabase |}))
                         value none) =
    flat_map (foreignDiagnostic sameDatabase) (visitedReferences none value).
Proof.
  intros value. eexists. split; [vm_compute; reflexivity |].
  eapply (convertValue_diagnostics (Exp {| Exp_databaseId := sameDatabase |})).
  vm_compute. reflexivity.
Defined.

End TraversalInstances.
